(** * staticsite: Markdown to HTML-tree pipeline

    Shallow embedding of [src/htmlnode.py], [src/textnode.py],
    [src/inline_markdown.py] and [src/block_markdown.py], followed by the
    properties of the inline tokenizer, the block segmenter and classifier,
    the block converters and the node renderer.

    Python [str] values are modelled as [list ascii]: a string is the
    sequence of its characters, each character an 8-bit code point.
    Exceptions are modelled by the [result] type below; every [raise] of the
    source becomes an [Err] carrying the kind of failure. *)

From Stdlib Require Import String Ascii DecimalString Bool Arith Lia List.
Import ListNotations.

Set Implicit Arguments.

(** ** Python strings *)

Module PyStr.

Definition str := list ascii.

(** String literals of the source are written [lit "..."]. *)
Definition lit (s : string) : str := list_ascii_of_string s.

Definition str_eqb (a b : str) : bool :=
  if list_eq_dec ascii_dec a b then true else false.

(** Truthiness of a string: [if s:] holds for non-empty strings. *)
Definition truthy (s : str) : bool :=
  match s with [] => false | _ :: _ => true end.

(** [s.startswith(p)] *)
Fixpoint startswith (s p : str) : bool :=
  match p, s with
  | [], _ => true
  | _ :: _, [] => false
  | a :: p', b :: s' => Ascii.eqb a b && startswith s' p'
  end.

(** [s.endswith(p)] *)
Definition endswith (s p : str) : bool := startswith (rev s) (rev p).

Definition cons_head (c : ascii) (parts : list str) : list str :=
  match parts with
  | [] => [[c]]
  | h :: t => (c :: h) :: t
  end.

(** [s.split(sep)] for a non-empty separator: the leftmost occurrence of
    [sep] ends the current part and the scan resumes after it. [skip]
    counts the separator characters still to be passed over. (Python
    raises on an empty separator; the source only splits on the literals
    "\n\n", "\n", "**", "_" and "`".) *)
Fixpoint split_aux (sep : str) (skip : nat) (s : str) : list str :=
  match s with
  | [] => [[]]
  | c :: s' =>
      match skip with
      | S k => split_aux sep k s'
      | O =>
          if startswith s sep
          then [] :: split_aux sep (length sep - 1) s'
          else cons_head c (split_aux sep 0 s')
      end
  end.

Definition split (s sep : str) : list str := split_aux sep 0 s.

(** [s.count(sep)]: number of non-overlapping occurrences, scanning from
    the left. *)
Fixpoint count_aux (sep : str) (skip : nat) (s : str) : nat :=
  match s with
  | [] => 0
  | _ :: s' =>
      match skip with
      | S k => count_aux sep k s'
      | O =>
          if startswith s sep
          then S (count_aux sep (length sep - 1) s')
          else count_aux sep 0 s'
      end
  end.

Definition count (s sep : str) : nat := count_aux sep 0 s.

(** [s.split(sep, 1)]: at most one cut, at the leftmost occurrence. The
    result is [[s]] when [sep] does not occur and [[before; after]]
    otherwise. *)
Fixpoint split_once (s sep : str) : option (str * str) :=
  if startswith s sep then Some ([], skipn (length sep) s)
  else
    match s with
    | [] => None
    | c :: s' =>
        match split_once s' sep with
        | Some (before, after) => Some (c :: before, after)
        | None => None
        end
    end.

Definition split1 (s sep : str) : list str :=
  match split_once s sep with
  | Some (before, after) => [before; after]
  | None => [s]
  end.

(** [sep.join(parts)] *)
Fixpoint join (sep : str) (parts : list str) : str :=
  match parts with
  | [] => []
  | [p] => p
  | p :: rest => p ++ sep ++ join sep rest
  end.

(** [str.isspace] on a single character, for code points below 256:
    TAB, LF, VT, FF, CR, FS, GS, RS, US, SPACE, NEL and NBSP. *)
Definition is_space (c : ascii) : bool :=
  let n := nat_of_ascii c in
  ((9 <=? n) && (n <=? 13)) || ((28 <=? n) && (n <=? 32))
  || (n =? 133) || (n =? 160).

Fixpoint dropwhile (p : ascii -> bool) (s : str) : str :=
  match s with
  | [] => []
  | c :: s' => if p c then dropwhile p s' else s
  end.

Fixpoint takewhile (p : ascii -> bool) (s : str) : str :=
  match s with
  | [] => []
  | c :: s' => if p c then c :: takewhile p s' else []
  end.

Definition mem (c : ascii) (chars : str) : bool :=
  existsb (Ascii.eqb c) chars.

(** [s.lstrip(chars)], [s.rstrip(chars)], [s.strip(chars)]: remove every
    leading (trailing) character that belongs to the set [chars]. *)
Definition lstrip_chars (s chars : str) : str :=
  dropwhile (fun c => mem c chars) s.

Definition rstrip_chars (s chars : str) : str :=
  rev (dropwhile (fun c => mem c chars) (rev s)).

Definition strip_chars (s chars : str) : str :=
  rstrip_chars (lstrip_chars s chars) chars.

(** [s.strip()]: remove leading and trailing whitespace. *)
Definition lstrip (s : str) : str := dropwhile is_space s.
Definition rstrip (s : str) : str := rev (dropwhile is_space (rev s)).
Definition strip (s : str) : str := rstrip (lstrip s).

(** [s.replace(a, b)] for single characters [a] and [b]. *)
Definition replace_char (s : str) (a b : ascii) : str :=
  map (fun c => if Ascii.eqb c a then b else c) s.

(** [s.find(c)] for a single character: index of the first occurrence,
    [None] standing for Python's -1. *)
Fixpoint find_char (s : str) (c : ascii) : option nat :=
  match s with
  | [] => None
  | d :: s' =>
      if Ascii.eqb d c then Some 0
      else match find_char s' c with
           | Some i => Some (S i)
           | None => None
           end
  end.

(** The slice [s[3:-3]]. For strings shorter than six characters the
    slice is empty, as in Python. *)
Definition slice_3_m3 (s : str) : str :=
  firstn (length s - 3 - 3) (skipn 3 s).

(** [str(n)] / [f"{n}"] for a non-negative integer. *)
Definition str_of_nat (n : nat) : str :=
  lit (NilEmpty.string_of_uint (Nat.to_uint n)).

End PyStr.

Import PyStr.

(** ** Failures *)

(** The source raises [ValueError] throughout; the constructors record
    which [raise] statement fired. *)
Inductive error : Type :=
| MalformedInline (delimiter text : str)  (* unmatched delimiter *)
| InvalidNode                             (* LeafNode / ParentNode.to_html *)
| InvalidTextNode                         (* link or image without URL *)
| InvalidCodeBlock                        (* "Invalid code block format" *)
| NoTitleFound.                           (* extract_title *)

Inductive result (A : Type) : Type :=
| OK (a : A)
| Err (e : error).

Arguments OK {A} a.
Arguments Err {A} e.

Definition bind {A B : Type} (r : result A) (f : A -> result B) : result B :=
  match r with
  | OK a => f a
  | Err e => Err e
  end.

Notation "'do' x <- r ; k" := (bind r (fun x => k))
  (at level 10, x name, r at level 100, k at level 200).

(** Characters that cannot be written inside a literal. *)
Definition nl : ascii := ascii_of_nat 10.
Definition dquote : ascii := ascii_of_nat 34.

(** ** htmlnode.py *)

Module htmlnode.

Definition props_t := list (str * str).

(** [LeafNode(value, tag=None, props=None)] and
    [ParentNode(tag, children, props=None)]. Every field that the source
    compares with [None] is an [option]. The attribute dictionary keeps
    insertion order, so it is an association list. *)
#[warnings="-register-all"]
Inductive HTMLNode : Type :=
| LeafNode (value : option str) (tag : option str) (props : option props_t)
| ParentNode (tag : option str) (children : option (list HTMLNode))
    (props : option props_t).

(** [HTMLNode.props_to_html] *)
Definition props_to_html (props : option props_t) : str :=
  match props with
  | None => []
  | Some [] => []
  | Some items =>
      let html_props :=
        map (fun kv => fst kv ++ lit "=" ++ [dquote] ++ snd kv ++ [dquote])
          items in
      lit " " ++ join (lit " ") html_props
  end.

(** [LeafNode.to_html] and [ParentNode.to_html] *)
Fixpoint to_html (node : HTMLNode) : result str :=
  match node with
  | LeafNode value tag props =>
      match value with
      | None => Err InvalidNode
      | Some v =>
          match tag with
          | None => OK v
          | Some t =>
              OK (lit "<" ++ t ++ props_to_html props ++ lit ">" ++ v
                  ++ lit "</" ++ t ++ lit ">")
          end
      end
  | ParentNode tag children props =>
      match tag with
      | None => Err InvalidNode
      | Some t =>
          if negb (truthy t) then Err InvalidNode
          else
            match children with
            | None => Err InvalidNode
            | Some cs =>
                let fix render_children (cs : list HTMLNode)
                      (html_content : str) : result str :=
                  match cs with
                  | [] => OK html_content
                  | child :: rest =>
                      match to_html child with
                      | OK h => render_children rest (html_content ++ h)
                      | Err e => Err e
                      end
                  end in
                match render_children cs
                        (lit "<" ++ t ++ props_to_html props ++ lit ">") with
                | OK html_content => OK (html_content ++ lit "</" ++ t ++ lit ">")
                | Err e => Err e
                end
            end
      end
  end.

End htmlnode.

Import htmlnode.

(** ** textnode.py *)

Module textnode.

Inductive TextType : Type := TEXT | BOLD | ITALIC | CODE | LINK | IMAGE.

Definition TextType_eqb (a b : TextType) : bool :=
  match a, b with
  | TEXT, TEXT | BOLD, BOLD | ITALIC, ITALIC
  | CODE, CODE | LINK, LINK | IMAGE, IMAGE => true
  | _, _ => false
  end.

(** [TextNode(text, text_type, url=None)] *)
Record TextNode : Type := mkTextNode {
  text : str;
  text_type : TextType;
  url : option str
}.

(** [text_node_to_html_node] *)
Definition text_node_to_html_node (text_node : TextNode) : result HTMLNode :=
  match text_type text_node with
  | TEXT => OK (LeafNode (Some (text text_node)) None None)
  | BOLD => OK (LeafNode (Some (text text_node)) (Some (lit "b")) None)
  | ITALIC => OK (LeafNode (Some (text text_node)) (Some (lit "i")) None)
  | CODE => OK (LeafNode (Some (text text_node)) (Some (lit "code")) None)
  | LINK =>
      match url text_node with
      | None => Err InvalidTextNode
      | Some u =>
          OK (LeafNode (Some (text text_node)) (Some (lit "a"))
                (Some [(lit "href", u)]))
      end
  | IMAGE =>
      match url text_node with
      | None => Err InvalidTextNode
      | Some u =>
          OK (LeafNode (Some []) (Some (lit "img"))
                (Some [(lit "src", u); (lit "alt", text text_node)]))
      end
  end.

End textnode.

Import textnode.

(** ** inline_markdown.py *)

Module inline_markdown.

(** The parts of one split, [for i, part in enumerate(split_parts)]. *)
Fixpoint delimiter_parts (i : nat) (split_parts : list str)
    (new_type : TextType) (new_nodes : list TextNode) : list TextNode :=
  match split_parts with
  | [] => new_nodes
  | part :: rest =>
      if negb (truthy part) then delimiter_parts (S i) rest new_type new_nodes
      else if Nat.even i
      then delimiter_parts (S i) rest new_type
             (new_nodes ++ [mkTextNode part TEXT None])
      else delimiter_parts (S i) rest new_type
             (new_nodes ++ [mkTextNode part new_type None])
  end.

(** The loop of [split_nodes_delimiter], threading [new_nodes]. *)
Fixpoint split_nodes_delimiter_loop (old_nodes : list TextNode)
    (delimiter : str) (new_type : TextType) (new_nodes : list TextNode)
    : result (list TextNode) :=
  match old_nodes with
  | [] => OK new_nodes
  | old_node :: rest =>
      if negb (TextType_eqb (text_type old_node) TEXT)
      then split_nodes_delimiter_loop rest delimiter new_type
             (new_nodes ++ [old_node])
      else
        let split_parts := split (text old_node) delimiter in
        if Nat.even (length split_parts) then
          if 1 <? length split_parts
          then Err (MalformedInline delimiter (text old_node))
          else split_nodes_delimiter_loop rest delimiter new_type
                 (new_nodes ++ [old_node])
        else split_nodes_delimiter_loop rest delimiter new_type
               (delimiter_parts 0 split_parts new_type new_nodes)
  end.

Definition split_nodes_delimiter (old_nodes : list TextNode)
    (delimiter : str) (new_type : TextType) : result (list TextNode) :=
  split_nodes_delimiter_loop old_nodes delimiter new_type [].

(** [open ([^open close]* ) close] at the start of [s]: the group and the
    rest of the string. The negated class cannot match [close], so the
    greedy star has a single way to succeed. *)
Definition match_group (open close : ascii) (s : str) : option (str * str) :=
  match s with
  | [] => None
  | c :: s1 =>
      if Ascii.eqb c open then
        let inside x := negb (Ascii.eqb x open) && negb (Ascii.eqb x close) in
        match dropwhile inside s1 with
        | [] => None
        | d :: s2 =>
            if Ascii.eqb d close then Some (takewhile inside s1, s2) else None
        end
      else None
  end.

(** The pattern [\[([^\[\]]* )\]\(([^\(\)]* )\)] at the start of [s]. *)
Definition match_link_at (s : str) : option (str * str * str) :=
  match match_group "["%char "]"%char s with
  | None => None
  | Some (anchor, s1) =>
      match match_group "("%char ")"%char s1 with
      | None => None
      | Some (target, rest) => Some (anchor, target, rest)
      end
  end.

(** The image pattern: the link pattern after a literal [!]. *)
Definition match_image_at (s : str) : option (str * str * str) :=
  match s with
  | c :: s1 => if Ascii.eqb c "!"%char then match_link_at s1 else None
  | [] => None
  end.

(** [re.findall] for the image pattern: leftmost matches, not
    overlapping; [skip] counts the characters of the last match still to
    be passed over. *)
Fixpoint findall_images (skip : nat) (s : str) : list (str * str) :=
  match s with
  | [] => []
  | _ :: s' =>
      match skip with
      | S k => findall_images k s'
      | O =>
          match match_image_at s with
          | Some (alt, target, rest) =>
              (alt, target) :: findall_images (length s' - length rest) s'
          | None => findall_images 0 s'
          end
      end
  end.

Definition extract_markdown_images (t : str) : list (str * str) :=
  findall_images 0 t.

(** [re.findall] for the link pattern with its lookbehind [(?<!!)]:
    [prev] is the character before the current position. *)
Fixpoint findall_links (prev : option ascii) (skip : nat) (s : str)
    : list (str * str) :=
  match s with
  | [] => []
  | c :: s' =>
      match skip with
      | S k => findall_links (Some c) k s'
      | O =>
          let after_bang :=
            match prev with
            | Some p => Ascii.eqb p "!"%char
            | None => false
            end in
          match (if after_bang then None else match_link_at s) with
          | Some (anchor, target, rest) =>
              (anchor, target)
                :: findall_links (Some c) (length s' - length rest) s'
          | None => findall_links (Some c) 0 s'
          end
      end
  end.

Definition extract_markdown_links (t : str) : list (str * str) :=
  findall_links None 0 t.

Definition append_text (new_nodes : list TextNode) (t : str) : list TextNode :=
  if truthy t then new_nodes ++ [mkTextNode t TEXT None] else new_nodes.

(** The inner loop of [split_nodes_image] / [split_nodes_link] over the
    extracted matches, for a markup builder [markup] and span kind [kind].
    Returns [new_nodes] and what is left of [text_to_process]; a [break]
    leaves the loop with nothing left. *)
Fixpoint split_matches (markup : str -> str -> str) (kind : TextType)
    (matches : list (str * str)) (text_to_process : str)
    (new_nodes : list TextNode) : list TextNode * str :=
  match matches with
  | [] => (new_nodes, text_to_process)
  | (alt, target) :: rest =>
      let markdown := markup alt target in
      match split1 text_to_process markdown with
      | [text_before; text_after] =>
          let new_nodes := append_text new_nodes text_before in
          let new_nodes := new_nodes ++ [mkTextNode alt kind (Some target)] in
          split_matches markup kind rest text_after new_nodes
      | _ =>
          if str_eqb text_to_process markdown
          then (new_nodes ++ [mkTextNode alt kind (Some target)], [])
          else (append_text new_nodes text_to_process, [])
      end
  end.

Definition markdown_image (alt target : str) : str :=
  lit "![" ++ alt ++ lit "](" ++ target ++ lit ")".

Definition markdown_link (anchor target : str) : str :=
  lit "[" ++ anchor ++ lit "](" ++ target ++ lit ")".

(** The outer loop shared by [split_nodes_image] and [split_nodes_link]. *)
Fixpoint split_nodes_loop (extract : str -> list (str * str))
    (markup : str -> str -> str) (kind : TextType)
    (old_nodes new_nodes : list TextNode) : list TextNode :=
  match old_nodes with
  | [] => new_nodes
  | old_node :: rest =>
      if negb (TextType_eqb (text_type old_node) TEXT)
      then split_nodes_loop extract markup kind rest (new_nodes ++ [old_node])
      else
        let original_text := text old_node in
        match extract original_text with
        | [] =>
            split_nodes_loop extract markup kind rest
              (if truthy original_text then new_nodes ++ [old_node]
               else new_nodes)
        | matches =>
            let '(new_nodes, text_to_process) :=
              split_matches markup kind matches original_text new_nodes in
            split_nodes_loop extract markup kind rest
              (append_text new_nodes text_to_process)
        end
  end.

Definition split_nodes_image (old_nodes : list TextNode) : list TextNode :=
  split_nodes_loop extract_markdown_images markdown_image IMAGE old_nodes [].

Definition split_nodes_link (old_nodes : list TextNode) : list TextNode :=
  split_nodes_loop extract_markdown_links markdown_link LINK old_nodes [].

(** [text_to_textnodes] *)
Definition text_to_textnodes (t : str) : result (list TextNode) :=
  let nodes := [mkTextNode t TEXT None] in
  let nodes := split_nodes_image nodes in
  let nodes := split_nodes_link nodes in
  do nodes <- split_nodes_delimiter nodes (lit "**") BOLD;
  do nodes <- split_nodes_delimiter nodes (lit "_") ITALIC;
  do nodes <- split_nodes_delimiter nodes (lit "`") CODE;
  OK nodes.

End inline_markdown.

Import inline_markdown.

(** ** block_markdown.py *)

Module block_markdown.

Inductive BlockType : Type :=
| PARAGRAPH | HEADING | CODE_BLOCK | QUOTE | UNORDERED_LIST | ORDERED_LIST.

Definition NL : str := [nl].
Definition fence : str := lit "```".

(** [markdown_to_blocks] *)
Fixpoint filter_blocks (raw_blocks filtered_blocks : list str) : list str :=
  match raw_blocks with
  | [] => filtered_blocks
  | block :: rest =>
      if negb (truthy block) then filter_blocks rest filtered_blocks
      else
        let stripped_block := strip block in
        if truthy stripped_block
        then filter_blocks rest (filtered_blocks ++ [stripped_block])
        else filter_blocks rest filtered_blocks
  end.

Definition markdown_to_blocks (markdown : str) : list str :=
  let raw_blocks := split markdown (NL ++ NL) in
  filter_blocks raw_blocks [].

(** [lines[0]]; [split] never returns an empty list. *)
Definition first_line (lines : list str) : str := hd [] lines.

(** [re.match(r"^#{1,6} ", line)]: between one and six [#], then a space.
    With seven or more [#] the character after any admissible run is
    again [#], so the match fails. *)
Definition is_hash (c : ascii) : bool := Ascii.eqb c "#"%char.

Definition heading_match (line : str) : bool :=
  let hashes := length (takewhile is_hash line) in
  (1 <=? hashes) && (hashes <=? 6) && startswith (skipn hashes line) (lit " ").

(** The three [for line in lines] scans. Each flag starts true, is
    cleared when [lines] is empty, and is cleared by the first line that
    takes the [break]. *)
Definition nonempty_lines (lines : list str) : bool :=
  match lines with [] => false | _ :: _ => true end.

Definition all_lines_quote (lines : list str) : bool :=
  nonempty_lines lines
  && forallb (fun line => startswith line (lit ">")) lines.

Definition all_lines_ul (lines : list str) : bool :=
  nonempty_lines lines
  && forallb (fun line =>
                startswith line (lit "* ") || startswith line (lit "- "))
       lines.

Fixpoint ol_scan (lines : list str) (expected_number : nat) : bool :=
  match lines with
  | [] => true
  | line :: rest =>
      if negb (startswith line (str_of_nat expected_number ++ lit ". "))
      then false
      else ol_scan rest (expected_number + 1)
  end.

Definition all_lines_ol (lines : list str) : bool :=
  nonempty_lines lines && ol_scan lines 1.

(** [block_to_block_type] *)
Definition block_to_block_type (block : str) : BlockType :=
  let lines := split block NL in
  if heading_match (first_line lines) then HEADING
  else if (6 <? length block) && startswith block fence && endswith block fence
  then CODE_BLOCK
  else if all_lines_quote lines then QUOTE
  else if all_lines_ul lines then UNORDERED_LIST
  else if all_lines_ol lines then ORDERED_LIST
  else PARAGRAPH.

(** [text_to_children] *)
Fixpoint convert_text_nodes (text_nodes : list TextNode)
    (children : list HTMLNode) : result (list HTMLNode) :=
  match text_nodes with
  | [] => OK children
  | text_node :: rest =>
      do html_node <- text_node_to_html_node text_node;
      convert_text_nodes rest (children ++ [html_node])
  end.

Definition text_to_children (t : str) : result (list HTMLNode) :=
  do text_nodes <- text_to_textnodes t;
  convert_text_nodes text_nodes [].

(** [paragraph_block_to_html_node] *)
Definition paragraph_block_to_html_node (block : str) : result HTMLNode :=
  let content := replace_char block nl " "%char in
  do children <- text_to_children content;
  OK (ParentNode (Some (lit "p")) (Some children) None).

(** [heading_block_to_html_node]; the [while] loop counts the leading
    [#] of the first line, and both branches of the defensive check set
    [content_start_index] to [level + 1]. *)
Definition heading_block_to_html_node (block : str) : result HTMLNode :=
  let lines := split block NL in
  let line := first_line lines in
  let level := length (takewhile is_hash line) in
  let content_start_index := level + 1 in
  let content := strip (skipn content_start_index line) in
  do children <- text_to_children content;
  let tag := lit "h" ++ str_of_nat level in
  OK (ParentNode (Some tag) (Some children) None).

(** [code_block_to_html_node] *)
Definition code_block_to_html_node (block : str) : result HTMLNode :=
  if negb (startswith block fence) || negb (endswith block fence)
  then Err InvalidCodeBlock
  else
    let content := strip_chars (slice_3_m3 block) NL in
    let code_content_node := LeafNode (Some content) (Some (lit "code")) None in
    OK (ParentNode (Some (lit "pre")) (Some [code_content_node]) None).

(** [quote_block_to_html_node] *)
Definition quote_content_line (line : str) : str :=
  lstrip_chars (lstrip_chars line (lit "> ")) (lit ">").

Definition quote_block_to_html_node (block : str) : result HTMLNode :=
  let lines := split block NL in
  let content_lines := map quote_content_line lines in
  let content := join NL content_lines in
  do children <- text_to_children content;
  OK (ParentNode (Some (lit "blockquote")) (Some children) None).

(** [unordered_list_block_to_html_node] *)
Fixpoint ul_items (lines : list str) (list_items : list HTMLNode)
    : result (list HTMLNode) :=
  match lines with
  | [] => OK list_items
  | line :: rest =>
      if negb (truthy line) then ul_items rest list_items
      else
        let content := skipn 2 line in
        do children <- text_to_children content;
        ul_items rest
          (list_items ++ [ParentNode (Some (lit "li")) (Some children) None])
  end.

Definition unordered_list_block_to_html_node (block : str)
    : result HTMLNode :=
  do list_items <- ul_items (split block NL) [];
  OK (ParentNode (Some (lit "ul")) (Some list_items) None).

(** [ordered_list_block_to_html_node] *)
Fixpoint ol_items (lines : list str) (list_items : list HTMLNode)
    : result (list HTMLNode) :=
  match lines with
  | [] => OK list_items
  | line :: rest =>
      if negb (truthy line) then ol_items rest list_items
      else
        match find_char line " "%char with
        | None => ol_items rest list_items
        | Some first_space_index =>
            let content := skipn (first_space_index + 1) line in
            do children <- text_to_children content;
            ol_items rest
              (list_items
                 ++ [ParentNode (Some (lit "li")) (Some children) None])
        end
  end.

Definition ordered_list_block_to_html_node (block : str) : result HTMLNode :=
  do list_items <- ol_items (split block NL) [];
  OK (ParentNode (Some (lit "ol")) (Some list_items) None).

(** [markdown_to_html_node]. The final [else] of the dispatch cannot be
    reached: [BlockType] has exactly the six cases. A node object is
    always truthy, so [if node:] appends every converted block. *)
Definition block_to_html_node (block : str) : result HTMLNode :=
  match block_to_block_type block with
  | PARAGRAPH => paragraph_block_to_html_node block
  | HEADING => heading_block_to_html_node block
  | CODE_BLOCK => code_block_to_html_node block
  | QUOTE => quote_block_to_html_node block
  | UNORDERED_LIST => unordered_list_block_to_html_node block
  | ORDERED_LIST => ordered_list_block_to_html_node block
  end.

Fixpoint convert_blocks (blocks : list str) (children_nodes : list HTMLNode)
    : result (list HTMLNode) :=
  match blocks with
  | [] => OK children_nodes
  | block :: rest =>
      do node <- block_to_html_node block;
      convert_blocks rest (children_nodes ++ [node])
  end.

Definition markdown_to_html_node (markdown : str) : result HTMLNode :=
  let blocks := markdown_to_blocks markdown in
  do children_nodes <- convert_blocks blocks [];
  OK (ParentNode (Some (lit "div")) (Some children_nodes) None).

(** [extract_title] *)
Fixpoint title_scan (lines : list str) : result str :=
  match lines with
  | [] => Err NoTitleFound
  | line :: rest =>
      let stripped_line := strip line in
      if startswith stripped_line (lit "# ")
      then OK (strip (skipn 2 stripped_line))
      else title_scan rest
  end.

Definition extract_title (markdown : str) : result str :=
  title_scan (split markdown NL).

End block_markdown.

Import block_markdown.

(** ** Vocabulary of the statements *)

(** Rendering a whole document: convert, then serialise. *)
Definition render (markdown : str) : result str :=
  do node <- markdown_to_html_node markdown;
  to_html node.

(** *** Strings *)

(** Stripping with a character predicate; [strip] is
    [strip_with is_space] and [strip_chars s chars] is
    [strip_with (fun c => mem c chars) s]. *)
Definition strip_with (p : ascii -> bool) (s : str) : str :=
  rev (dropwhile p (rev (dropwhile p s))).

(** The separator of [markdown_to_blocks]. *)
Definition NLNL : str := NL ++ NL.

(** [sep] does not occur in [s]. *)
Fixpoint sep_free (sep s : str) : bool :=
  match s with
  | [] => true
  | _ :: s' => negb (startswith s sep) && sep_free sep s'
  end.

(** No occurrence of [sep] in [b ++ rest] starts inside [b]. *)
Fixpoint clear_before (sep b rest : str) : bool :=
  match b with
  | [] => true
  | _ :: b' => negb (startswith (b ++ rest) sep) && clear_before sep b' rest
  end.

(** *** Tokenizer *)

(** The kinds of span that carry a target. *)
Definition carries_target (kind : TextType) : bool :=
  match kind with
  | LINK | IMAGE => true
  | TEXT | BOLD | ITALIC | CODE => false
  end.

(** The target of a span is present for [LINK] and [IMAGE] and absent for
    the four other kinds. *)
Definition target_ok (n : TextNode) : Prop :=
  if carries_target (text_type n)
  then exists u, url n = Some u
  else url n = None.

(** A text span that the delimiter splits into an even number of parts. *)
Definition unmatched (delimiter : str) (n : TextNode) : Prop :=
  text_type n = TEXT
  /\ Nat.even (length (split (text n) delimiter)) = true.

(** The pass over [nodes] for [delimiter] meets such a span. *)
Definition pass_fails (delimiter : str) (nodes : list TextNode) : Prop :=
  Exists (unmatched delimiter) nodes.

(** The spans handed to the delimiter passes: the input after image and
    link extraction. *)
Definition extracted (t : str) : list TextNode :=
  split_nodes_link (split_nodes_image [mkTextNode t TEXT None]).

(** Some delimiter pass of the pipeline run on [t] meets an unmatched
    span: the bold pass, or the italic pass on the output of the bold
    pass, or the code pass on the output of the italic pass. *)
Definition some_pass_fails (t : str) : Prop :=
  pass_fails (lit "**") (extracted t)
  \/ (exists spans1,
        split_nodes_delimiter (extracted t) (lit "**") BOLD = OK spans1
        /\ (pass_fails (lit "_") spans1
            \/ (exists spans2,
                  split_nodes_delimiter spans1 (lit "_") ITALIC = OK spans2
                  /\ pass_fails (lit "`") spans2))).

(** *** Blocks *)

(** A segmented block: not empty, no whitespace at either end, and no
    blank-line separator inside. *)
Definition block_ok (b : str) : Prop :=
  b <> []
  /\ (forall c r, b = c :: r -> is_space c = false)
  /\ (forall c r, rev b = c :: r -> is_space c = false)
  /\ sep_free NLNL b = true.

(** Line [i] (counting from 0) starts with the decimal numeral of
    [first + i], a dot and a space. *)
Definition numbered_from (first : nat) (lines : list str) : Prop :=
  forall i line,
    nth_error lines i = Some line ->
    startswith line (str_of_nat (first + i) ++ lit ". ") = true.

(** One of the four rules tried before the ordered-list rule matches. *)
Definition earlier_rule (block : str) : bool :=
  let lines := split block NL in
  heading_match (first_line lines)
  || ((6 <? length block) && startswith block fence && endswith block fence)
  || all_lines_quote lines
  || all_lines_ul lines.

(** The decimal digits [0] to [9]. *)
Definition is_digit (c : ascii) : bool :=
  let n := nat_of_ascii c in (48 <=? n) && (n <=? 57).

(** Membership in the character set of [strip('\n')]. *)
Definition is_nl (c : ascii) : bool := mem c NL.

(** Code blocks as the specification words them: after the fences,
    remove one newline at the front if there is one, and one at the back
    if there is one. *)
Definition drop_one_nl (s : str) : str :=
  match s with
  | c :: r => if Ascii.eqb c nl then r else s
  | [] => []
  end.

Definition strip_one_newline (s : str) : str :=
  rev (drop_one_nl (rev (drop_one_nl s))).

Definition code_block_one_newline (block : str) : result HTMLNode :=
  OK (ParentNode (Some (lit "pre"))
        (Some [LeafNode (Some (strip_one_newline (slice_3_m3 block)))
                 (Some (lit "code")) None])
        None).

(** Membership in the character set of [lstrip('> ')]. *)
Definition is_marker (c : ascii) : bool := mem c (lit "> ").

(** Quote blocks as the specification words them: from every line
    remove a leading [>] and then at most one space. *)
Definition strip_quote_marker (line : str) : str :=
  match line with
  | c :: r =>
      if Ascii.eqb c ">"%char then
        match r with
        | d :: r' => if Ascii.eqb d " "%char then r' else r
        | [] => []
        end
      else line
  | [] => []
  end.

Definition quote_block_one_marker (block : str) : result HTMLNode :=
  let lines := split block NL in
  let content := join NL (map strip_quote_marker lines) in
  do children <- text_to_children content;
  OK (ParentNode (Some (lit "blockquote")) (Some children) None).

(** A title line: its trimmed form starts with "# ". *)
Definition is_title_line (line : str) : bool :=
  startswith (strip line) (lit "# ").

(** The title a title line carries: what follows "# ", trimmed. *)
Definition title_of (line : str) : str := strip (skipn 2 (strip line)).

(** *** Rendering and conversion *)

(** One attribute as it appears in an opening tag. *)
Definition render_attribute (kv : str * str) : str :=
  lit " " ++ fst kv ++ lit "=" ++ [dquote] ++ snd kv ++ [dquote].

(** Apply a fallible function to every element, in order, stopping at the
    first failure. *)
Fixpoint map_result (A B : Type) (f : A -> result B) (l : list A)
    : result (list B) :=
  match l with
  | [] => OK []
  | x :: rest =>
      do y <- f x;
      do ys <- map_result f rest;
      OK (y :: ys)
  end.

(** The node renders without failure. *)
Definition renders (node : HTMLNode) : Prop :=
  exists html, to_html node = OK html.

Definition is_malformed_inline (e : error) : Prop :=
  exists delimiter t, e = MalformedInline delimiter t.

(** A list item holding [children]. *)
Definition li (children : list HTMLNode) : HTMLNode :=
  ParentNode (Some (lit "li")) (Some children) None.

(** The markdown a span stands for after the image and link passes: the
    markup of an image or a link, and the text of any other span. *)
Definition source_of (n : TextNode) : str :=
  match text_type n, url n with
  | IMAGE, Some u => markdown_image (text n) u
  | LINK, Some u => markdown_link (text n) u
  | _, _ => text n
  end.

(** The string without its whitespace characters. *)
Definition nonspace (s : str) : str :=
  filter (fun c => negb (is_space c)) s.

(** A conversion result that is either a node that renders or an
    unmatched-delimiter failure. *)
Definition converts_well (r : result HTMLNode) : Prop :=
  match r with
  | OK node => renders node
  | Err e => is_malformed_inline e
  end.

(** The item of an unordered list for a line: the tokenization of the
    line without its first two characters. *)
Definition ul_item (line : str) : result HTMLNode :=
  do children <- text_to_children (skipn 2 line);
  OK (li children).

(** The lines for which the ordered-list loop builds an item. *)
Definition ol_line (line : str) : bool :=
  truthy line
  && match find_char line " "%char with Some _ => true | None => false end.

(** The item of an ordered list for a line: the tokenization of what
    follows the first space. *)
Definition ol_item (line : str) : result HTMLNode :=
  match find_char line " "%char with
  | Some first_space_index =>
      do children <- text_to_children (skipn (first_space_index + 1) line);
      OK (li children)
  | None => OK (li [])
  end.

(** The item of the line numbered [number]: the tokenization of the line
    after the numeral, the dot and the space. *)
Definition ol_item_numbered (numbered : nat * str) : result HTMLNode :=
  do children <- text_to_children
                   (skipn (length (str_of_nat (fst numbered)) + 2)
                      (snd numbered));
  OK (li children).

(** A span without target has a non-empty text. *)
Definition nonempty_span (n : TextNode) : Prop :=
  carries_target (text_type n) = false -> text n <> [].

(** A text span that a pass for [delimiter] leaves as it is: it has no
    target, is not empty and does not contain the delimiter. *)
Definition settled_span (delimiter : str) (n : TextNode) : Prop :=
  text_type n = TEXT ->
  url n = None /\ text n <> [] /\ sep_free delimiter (text n) = true.

(** A character outside the two characters [a] and [b]. *)
Definition outside (a b : ascii) (c : ascii) : Prop := c <> a /\ c <> b.

(** ** Behaviour on the examples of the test suite *)

Example split_bold : split (lit "a**b**c") (lit "**") = [lit "a"; lit "b"; lit "c"].
Proof. reflexivity. Qed.

Example split_overlap : split (lit "***") (lit "**") = [lit ""; lit "*"].
Proof. reflexivity. Qed.

Example split_empty : split (lit "") (lit "**") = [lit ""].
Proof. reflexivity. Qed.

Example str_of_nat_10 : str_of_nat 10 = lit "10" /\ str_of_nat 0 = lit "0".
Proof. split; reflexivity. Qed.

Example tokenize_plain :
  text_to_textnodes (lit "plain text") = OK [mkTextNode (lit "plain text") TEXT None].
Proof. reflexivity. Qed.

Example tokenize_bold :
  text_to_textnodes (lit "**bold**") = OK [mkTextNode (lit "bold") BOLD None].
Proof. reflexivity. Qed.

Example tokenize_code :
  text_to_textnodes (lit "a `code` b")
  = OK [mkTextNode (lit "a ") TEXT None; mkTextNode (lit "code") CODE None;
        mkTextNode (lit " b") TEXT None].
Proof. reflexivity. Qed.

Example tokenize_image :
  text_to_textnodes (lit "![alt](u.png)")
  = OK [mkTextNode (lit "alt") IMAGE (Some (lit "u.png"))].
Proof. reflexivity. Qed.

Example tokenize_image_link :
  text_to_textnodes (lit "x ![a](b) and [c](d)!")
  = OK [mkTextNode (lit "x ") TEXT None; mkTextNode (lit "a") IMAGE (Some (lit "b"));
        mkTextNode (lit " and ") TEXT None; mkTextNode (lit "c") LINK (Some (lit "d"));
        mkTextNode (lit "!") TEXT None].
Proof. reflexivity. Qed.

Example render_title_body :
  render (lit "# Title" ++ NL ++ NL ++ lit "Body text")
  = OK (lit "<div><h1>Title</h1><p>Body text</p></div>").
Proof. reflexivity. Qed.

Example render_blockquote :
  render (NL ++ lit "> This is a quote." ++ NL ++ lit "> It has **bold** text."
          ++ NL ++ NL ++ lit "Another paragraph." ++ NL)
  = OK (lit "<div><blockquote>This is a quote." ++ NL
        ++ lit "It has <b>bold</b> text.</blockquote><p>Another paragraph.</p></div>").
Proof. reflexivity. Qed.

(** ** Facts about the string operations *)

Section StringFacts.

Lemma startswith_nil (s : str) : startswith s [] = true.
Proof. destruct s; reflexivity. Qed.

Lemma startswith_app (s p r : str) :
  startswith s p = true -> startswith (s ++ r) p = true.
Proof.
  revert s; induction p as [|a p IH]; intros s H.
  - apply startswith_nil.
  - destruct s as [|b s]; simpl in *; [discriminate|].
    apply andb_true_iff in H as [Hab Hs].
    rewrite Hab; simpl; auto.
Qed.

Lemma startswith_self_app (p r : str) : startswith (p ++ r) p = true.
Proof.
  induction p as [|a p IH]; simpl.
  - apply startswith_nil.
  - rewrite Ascii.eqb_refl; simpl; exact IH.
Qed.

Lemma startswith_spec (s p : str) :
  startswith s p = true <-> exists r, s = p ++ r.
Proof.
  split.
  - revert s; induction p as [|a p IH]; intros s H.
    + exists s; reflexivity.
    + destruct s as [|b s]; simpl in H; [discriminate|].
      apply andb_true_iff in H as [Hab Hs].
      apply Ascii.eqb_eq in Hab; subst b.
      destruct (IH _ Hs) as [r ->]. exists r; reflexivity.
  - intros [r ->]. apply startswith_self_app.
Qed.

Lemma dropwhile_all (p : ascii -> bool) (s : str) :
  forallb p s = true -> dropwhile p s = [].
Proof.
  induction s as [|c s IH]; simpl; auto.
  intros H; apply andb_true_iff in H as [Hc Hs]; rewrite Hc; auto.
Qed.

Lemma dropwhile_head (p : ascii -> bool) (s : str) c r :
  dropwhile p s = c :: r -> p c = false.
Proof.
  induction s as [|d s IH]; simpl; [discriminate|].
  destruct (p d) eqn:Hd; auto.
  intros H; injection H as -> _; exact Hd.
Qed.

Lemma dropwhile_suffix (p : ascii -> bool) (s : str) :
  exists a, s = a ++ dropwhile p s /\ forallb p a = true.
Proof.
  induction s as [|c s [a [IH Ha]]]; simpl.
  - exists []; auto.
  - destruct (p c) eqn:Hc.
    + exists (c :: a); simpl; rewrite Hc, Ha; split; [congruence|reflexivity].
    + exists []; auto.
Qed.

(** What stripping removes and what it leaves: the removed prefix and
    suffix satisfy the predicate, and the result neither starts nor ends
    with a character that does. *)
Lemma strip_with_spec (p : ascii -> bool) (s : str) :
  exists lead trail,
    s = lead ++ strip_with p s ++ trail
    /\ forallb p lead = true
    /\ forallb p trail = true
    /\ (forall c r, strip_with p s = c :: r -> p c = false)
    /\ (forall c r, rev (strip_with p s) = c :: r -> p c = false).
Proof.
  unfold strip_with.
  destruct (dropwhile_suffix p s) as (lead & Hs & Hlead).
  destruct (dropwhile_suffix p (rev (dropwhile p s))) as (tr & Hr & Htr).
  set (y := dropwhile p s) in *.
  set (z := dropwhile p (rev y)) in *.
  assert (Hy : y = rev z ++ rev tr).
  { rewrite <- rev_app_distr, <- Hr, rev_involutive. reflexivity. }
  exists lead, (rev tr). repeat split.
  - rewrite <- Hy. exact Hs.
  - exact Hlead.
  - rewrite forallb_forall in *. intros c Hc. apply Htr.
    apply in_rev. exact Hc.
  - intros c r Hz. rewrite Hz in Hy. cbn [app] in Hy.
    exact (dropwhile_head p s Hy).
  - intros c r Hz. rewrite rev_involutive in Hz.
    exact (dropwhile_head p (rev y) Hz).
Qed.

(** A string whose first and last characters escape the predicate is
    left as it is. *)
Lemma strip_with_fixed (p : ascii -> bool) (s : str) :
  (forall c r, s = c :: r -> p c = false) ->
  (forall c r, rev s = c :: r -> p c = false) ->
  strip_with p s = s.
Proof.
  intros Hhd Hlast. unfold strip_with.
  assert (Hd : forall x, (forall c r, x = c :: r -> p c = false) ->
                         dropwhile p x = x).
  { intros [|c r] Hx; [reflexivity|]. cbn [dropwhile].
    rewrite (Hx c r eq_refl). reflexivity. }
  rewrite (Hd s Hhd), (Hd (rev s) Hlast). apply rev_involutive.
Qed.

Lemma strip_all_space (s : str) : forallb is_space s = true -> strip s = [].
Proof.
  intros H; unfold strip, lstrip, rstrip.
  rewrite (dropwhile_all _ _ H). reflexivity.
Qed.

End StringFacts.

Section SplitFacts.

Variable sep : str.

Lemma split_aux_not_nil (k : nat) (s : str) : split_aux sep k s <> [].
Proof.
  revert k; induction s as [|c s IH]; intros k; cbn [split_aux]; [discriminate|].
  destruct k; [|apply IH].
  destruct (startswith (c :: s) sep); [discriminate|].
  specialize (IH 0). destruct (split_aux sep 0 s); [contradiction|simpl; discriminate].
Qed.

Lemma cons_head_length (c : ascii) (l : list str) :
  l <> [] -> length (cons_head c l) = length l.
Proof. destruct l; [contradiction|reflexivity]. Qed.

(** Splitting yields one part more than there are occurrences. *)
Lemma split_aux_length (k : nat) (s : str) :
  length (split_aux sep k s) = count_aux sep k s + 1.
Proof.
  revert k; induction s as [|c s IH]; intros k; cbn [split_aux count_aux]; [reflexivity|].
  destruct k; [|apply IH].
  destruct (startswith (c :: s) sep); cbn [length].
  - rewrite IH; reflexivity.
  - rewrite cons_head_length by apply split_aux_not_nil. apply IH.
Qed.

Lemma split_length (s : str) : length (split s sep) = count s sep + 1.
Proof. apply split_aux_length. Qed.

(** Every part is made of characters of the string that was split. *)
Lemma split_aux_Forall (P : ascii -> Prop) (k : nat) (s : str) :
  Forall P s -> Forall (Forall P) (split_aux sep k s).
Proof.
  revert k; induction s as [|c s IH]; intros k Hs; cbn [split_aux].
  - repeat constructor.
  - inversion Hs as [|? ? Hc Hs']; subst.
    destruct k; [|auto].
    destruct (startswith (c :: s) sep); [constructor; auto|].
    specialize (IH 0 Hs').
    destruct (split_aux sep 0 s) as [|h t]; simpl.
    + repeat constructor; assumption.
    + inversion IH; subst. constructor; [constructor|]; assumption.
Qed.

Lemma split_aux_skip (pre r : str) :
  split_aux sep (length pre) (pre ++ r) = split_aux sep 0 r.
Proof.
  induction pre as [|c pre IH]; simpl; [reflexivity|exact IH].
Qed.

(** The first part is a prefix of the string. *)
Lemma split_aux_head_prefix (s h : str) (t : list str) :
  split_aux sep 0 s = h :: t -> exists r, s = h ++ r.
Proof.
  revert h t; induction s as [|c s IH]; intros h t; cbn [split_aux].
  - intros H; injection H as <- _; exists []; reflexivity.
  - destruct (startswith (c :: s) sep).
    + intros H; injection H as <- _; eexists; reflexivity.
    + destruct (split_aux sep 0 s) as [|h' t'] eqn:E; simpl;
        intros H; injection H as <- _.
      * eexists; reflexivity.
      * destruct (IH _ _ eq_refl) as [r ->]. exists r; reflexivity.
Qed.

End SplitFacts.

(** ** The node renderer *)

Section Renderer.

(** C7. Rendering a leaf without a value fails with [InvalidNode];
    rendering a parent whose tag is absent or empty, or whose children are
    absent, fails with [InvalidNode]; a parent with a non-empty tag [t]
    and an empty list of children renders successfully, to the opening
    tag (carrying the attributes, if any) followed by the closing tag,
    which is [<t></t>] for a node built as [ParentNode(t, [])]. *)
Theorem to_html_invalid_and_empty :
  (forall tag props, to_html (LeafNode None tag props) = Err InvalidNode)
  /\ (forall children props,
        to_html (ParentNode None children props) = Err InvalidNode)
  /\ (forall children props,
        to_html (ParentNode (Some []) children props) = Err InvalidNode)
  /\ (forall tag props, to_html (ParentNode tag None props) = Err InvalidNode)
  /\ (forall t props, t <> [] ->
        to_html (ParentNode (Some t) (Some []) props)
        = OK (lit "<" ++ t ++ props_to_html props ++ lit ">"
              ++ lit "</" ++ t ++ lit ">"))
  /\ (forall t, t <> [] ->
        to_html (ParentNode (Some t) (Some []) None)
        = OK (lit "<" ++ t ++ lit "></" ++ t ++ lit ">")
        /\ to_html (ParentNode (Some t) (Some []) (Some []))
           = OK (lit "<" ++ t ++ lit "></" ++ t ++ lit ">")).
Proof.
  assert (Hempty : forall t props, t <> [] ->
            to_html (ParentNode (Some t) (Some []) props)
            = OK (lit "<" ++ t ++ props_to_html props ++ lit ">"
                  ++ lit "</" ++ t ++ lit ">")).
  { intros [|c t] props Ht; [contradiction|].
    cbn -[lit props_to_html app]. f_equal.
    repeat rewrite <- app_assoc. reflexivity. }
  split; [reflexivity|].
  split; [reflexivity|].
  split; [reflexivity|].
  split; [intros [t|] props; [destruct t|]; reflexivity|].
  split; [exact Hempty|].
  intros t Ht; split; rewrite (Hempty _ _ Ht); reflexivity.
Qed.

Lemma to_html_invalid_and_empty_witness :
  to_html (ParentNode (Some (lit "div")) (Some []) None)
  = OK (lit "<div></div>").
Proof.
  destruct to_html_invalid_and_empty as (_ & _ & _ & _ & _ & H).
  destruct (H (lit "div")) as [H1 _]; [discriminate|].
  exact H1.
Defined.

End Renderer.

(** ** The tokenizer on the empty string *)

(** C8. Tokenizing the empty string yields the empty sequence of spans,
    not a sequence holding one empty text span. *)
Theorem text_to_textnodes_empty :
  text_to_textnodes [] = OK []
  /\ text_to_textnodes [] <> OK [mkTextNode [] TEXT None].
Proof. split; [reflexivity|discriminate]. Qed.

(** ** Documents without content *)

Section BlankDocuments.

Lemma filter_blocks_blank (raw acc : list str) :
  Forall (fun p => forallb is_space p = true) raw ->
  filter_blocks raw acc = acc.
Proof.
  revert acc; induction raw as [|p raw IH]; intros acc H; simpl; auto.
  inversion H as [|? ? Hp Hraw]; subst.
  rewrite (strip_all_space _ Hp); simpl.
  destruct (truthy p); simpl; auto.
Qed.

Lemma markdown_to_blocks_blank (markdown : str) :
  forallb is_space markdown = true -> markdown_to_blocks markdown = [].
Proof.
  intros H; unfold markdown_to_blocks.
  apply filter_blocks_blank.
  assert (Hall : Forall (fun c => is_space c = true) markdown)
    by (apply Forall_forall; intros c Hc;
        exact (proj1 (forallb_forall _ _) H c Hc)).
  pose proof (split_aux_Forall (NL ++ NL) 0 Hall) as Hparts.
  apply Forall_forall; intros p Hp.
  apply forallb_forall; intros c Hc.
  pose proof (proj1 (Forall_forall _ _) Hparts p Hp) as Hpc.
  exact (proj1 (Forall_forall _ _) Hpc c Hc).
Qed.

(** C10. For an input that is empty or consists of whitespace only, the
    document conversion succeeds with a [div] parent whose list of
    children is present and empty, and that node renders to
    [<div></div>]. *)
Theorem markdown_to_html_node_blank (markdown : str) :
  forallb is_space markdown = true ->
  markdown_to_html_node markdown
  = OK (ParentNode (Some (lit "div")) (Some []) None)
  /\ to_html (ParentNode (Some (lit "div")) (Some []) None)
     = OK (lit "<div></div>")
  /\ render markdown = OK (lit "<div></div>").
Proof.
  intros H.
  assert (E : markdown_to_html_node markdown
              = OK (ParentNode (Some (lit "div")) (Some []) None)).
  { unfold markdown_to_html_node.
    rewrite (markdown_to_blocks_blank _ H). reflexivity. }
  split; [exact E|]. split; [reflexivity|].
  unfold render. rewrite E. reflexivity.
Qed.

Lemma markdown_to_html_node_blank_witness :
  render (lit "  " ++ NL ++ NL ++ lit " ") = OK (lit "<div></div>").
Proof.
  exact (proj2 (proj2 (markdown_to_html_node_blank
                         (lit "  " ++ NL ++ NL ++ lit " ") eq_refl))).
Defined.

End BlankDocuments.

(** ** Title extraction *)

Section Title.

Lemma title_scan_first (pre : list str) (line : str) (post : list str) :
  Forall (fun l => is_title_line l = false) pre ->
  is_title_line line = true ->
  title_scan (pre ++ line :: post) = OK (title_of line).
Proof.
  unfold is_title_line, title_of.
  induction pre as [|l pre IH]; intros Hpre Hline; cbn [title_scan app].
  - rewrite Hline. reflexivity.
  - inversion Hpre as [|? ? Hl Hpre']; subst.
    rewrite Hl. auto.
Qed.

Lemma title_scan_none (lines : list str) :
  title_scan lines = Err NoTitleFound
  <-> Forall (fun l => is_title_line l = false) lines.
Proof.
  unfold is_title_line.
  induction lines as [|l lines IH]; cbn [title_scan].
  - split; auto.
  - destruct (startswith (strip l) (lit "# ")) eqn:E.
    + split; [discriminate|].
      intros H; inversion H; congruence.
    + rewrite IH. split; [intros H; constructor; auto|].
      intros H; inversion H; auto.
Qed.

Lemma title_scan_found (lines : list str) (t : str) :
  title_scan lines = OK t ->
  exists pre line post,
    lines = pre ++ line :: post
    /\ Forall (fun l => is_title_line l = false) pre
    /\ is_title_line line = true
    /\ t = title_of line.
Proof.
  unfold is_title_line, title_of.
  induction lines as [|l lines IH]; cbn [title_scan]; [discriminate|].
  destruct (startswith (strip l) (lit "# ")) eqn:E.
  - intros H; injection H as <-.
    exists [], l, lines. auto.
  - intros H. destruct (IH H) as (pre & line & post & -> & Hpre & Hl & ->).
    exists (l :: pre), line, post. repeat split; auto.
Qed.

Lemma title_scan_err (lines : list str) (e : error) :
  title_scan lines = Err e -> e = NoTitleFound.
Proof.
  induction lines as [|l lines IH]; cbn [title_scan].
  - congruence.
  - destruct (startswith (strip l) (lit "# ")); [discriminate|exact IH].
Qed.

(** C9. [extract_title] returns the trimmed remainder, after "# ", of the
    first line whose trimmed form starts with "# "; it fails, with
    [NoTitleFound] and nothing else, exactly when the document has no
    such line. In particular it fails on "no heading here". *)
Theorem extract_title_first_heading (markdown : str) :
  (forall t, extract_title markdown = OK t
     <-> exists pre line post,
           split markdown NL = pre ++ line :: post
           /\ Forall (fun l => is_title_line l = false) pre
           /\ is_title_line line = true
           /\ t = strip (skipn 2 (strip line)))
  /\ (extract_title markdown = Err NoTitleFound
      <-> Forall (fun l => is_title_line l = false) (split markdown NL))
  /\ (forall e, extract_title markdown = Err e -> e = NoTitleFound)
  /\ extract_title (lit "no heading here") = Err NoTitleFound.
Proof.
  unfold extract_title.
  split; [|split; [|split]].
  - intros t; split.
    + apply title_scan_found.
    + intros (pre & line & post & -> & Hpre & Hl & ->).
      apply title_scan_first; assumption.
  - apply title_scan_none.
  - apply title_scan_err.
  - reflexivity.
Qed.

Lemma extract_title_first_heading_witness :
  extract_title (lit "intro" ++ NL ++ lit " # My Title ") = OK (lit "My Title").
Proof.
  apply (proj1 (extract_title_first_heading
                  (lit "intro" ++ NL ++ lit " # My Title "))).
  exists [lit "intro"], (lit " # My Title "), [].
  repeat split. repeat constructor.
Defined.

End Title.

(** ** Classification of ordered lists *)

Section OrderedLists.

Lemma ol_scan_spec (lines : list str) (first : nat) :
  ol_scan lines first = true <-> numbered_from first lines.
Proof.
  revert first; induction lines as [|l lines IH]; intros first;
    cbn [ol_scan].
  - split; [|reflexivity]. intros _ [|i] line; discriminate.
  - destruct (startswith l (str_of_nat first ++ lit ". ")) eqn:E; cbn [negb].
    + rewrite IH. split.
      * intros H [|i] line Hi; cbn [nth_error] in Hi.
        -- injection Hi as <-. rewrite Nat.add_0_r. exact E.
        -- replace (first + S i) with (first + 1 + i) by lia. auto.
      * intros H i line Hi.
        replace (first + 1 + i) with (first + S i) by lia.
        apply H. exact Hi.
    + split; [discriminate|].
      intros H. specialize (H 0 l eq_refl).
      rewrite Nat.add_0_r in H. congruence.
Qed.

Lemma first_line_prefix (block : str) :
  exists r, block = first_line (split block NL) ++ r.
Proof.
  unfold split, first_line.
  destruct (split_aux NL 0 block) as [|h t] eqn:E.
  - exists block; reflexivity.
  - exact (split_aux_head_prefix _ _ E).
Qed.

(** A block whose first line starts with "1. " is neither a heading, nor
    a code block, nor a quote, nor an unordered list. *)
Lemma one_dot_excludes (block : str) :
  startswith (first_line (split block NL)) (lit "1. ") = true ->
  heading_match (first_line (split block NL)) = false
  /\ startswith block fence = false
  /\ all_lines_quote (split block NL) = false
  /\ all_lines_ul (split block NL) = false.
Proof.
  intros H.
  destruct (first_line_prefix block) as [r Hr].
  apply startswith_spec in H as [r' H'].
  assert (Hb : block = lit "1. " ++ (r' ++ r))
    by (rewrite Hr at 1; rewrite H', <- app_assoc; reflexivity).
  split; [rewrite H'; reflexivity|].
  split; [rewrite Hb; reflexivity|].
  unfold all_lines_quote, all_lines_ul.
  destruct (split block NL) as [|l ls]; [split; reflexivity|].
  cbn [first_line hd] in H'. subst l. split; reflexivity.
Qed.

(** A leading decimal digit is none of the markers [#], [`], [>], [*]
    and [-], so no earlier rule takes a block that starts with one. *)
Lemma digit_first_no_earlier_rule (block : str) (c : ascii) (r : str) :
  block = c :: r ->
  is_digit c = true ->
  earlier_rule block = false.
Proof.
  intros -> Hc.
  assert (Hm : is_hash c = false /\ Ascii.eqb "`"%char c = false
               /\ Ascii.eqb ">"%char c = false /\ Ascii.eqb "*"%char c = false
               /\ Ascii.eqb "-"%char c = false).
  { destruct c as [[] [] [] [] [] [] [] []]; try discriminate Hc;
      repeat split; reflexivity. }
  destruct Hm as (Hh & Hb & Hq & Hs & Hd).
  assert (Hline : forall l : str,
            (l = [] \/ exists l', l = c :: l') ->
            heading_match l = false
            /\ startswith l (lit ">") = false
            /\ startswith l (lit "* ") || startswith l (lit "- ") = false).
  { intros l [->|[l' ->]]; [repeat split; reflexivity|].
    unfold heading_match. cbn [takewhile]. rewrite Hh.
    cbn [lit list_ascii_of_string startswith length Nat.leb andb].
    rewrite Hq, Hs, Hd. repeat split; reflexivity. }
  destruct (first_line_prefix (c :: r)) as [r' Hr'].
  assert (Hfl : first_line (split (c :: r) NL) = []
                \/ exists l', first_line (split (c :: r) NL) = c :: l').
  { destruct (first_line (split (c :: r) NL)) as [|d l']; [left; reflexivity|].
    right. injection Hr' as -> _. eexists; reflexivity. }
  destruct (Hline _ Hfl) as (H1 & H2 & H3).
  unfold earlier_rule, all_lines_quote, all_lines_ul.
  rewrite H1.
  replace (startswith (c :: r) fence) with false
    by (cbn [fence lit list_ascii_of_string startswith]; rewrite Hb;
        reflexivity).
  rewrite andb_false_r. cbn [andb orb].
  destruct (split (c :: r) NL) as [|l ls]; [reflexivity|].
  cbn [first_line hd] in H2, H3. cbn [nonempty_lines forallb andb].
  rewrite H2, H3. reflexivity.
Qed.

(** C5. [block_to_block_type] answers [ORDERED_LIST] exactly when the
    lines of the block start with "1. ", "2. ", "3. ", ... in order, from
    1 and without gap. A block that deviates is never an ordered list: it
    falls through to [PARAGRAPH] unless an earlier rule (heading, code,
    quote, unordered list) takes it, which none does when the block
    starts with a digit. "1. a\n2. b" is an ordered list and "1. a\n3. b"
    a paragraph. *)
Theorem ordered_list_iff_numbered (block : str) :
  (block_to_block_type block = ORDERED_LIST
   <-> numbered_from 1 (split block NL))
  /\ (~ numbered_from 1 (split block NL) ->
      block_to_block_type block <> ORDERED_LIST
      /\ (earlier_rule block = false -> block_to_block_type block = PARAGRAPH)
      /\ (forall c r, block = c :: r -> is_digit c = true ->
            block_to_block_type block = PARAGRAPH))
  /\ block_to_block_type (lit "1. a" ++ NL ++ lit "2. b") = ORDERED_LIST
  /\ block_to_block_type (lit "1. a" ++ NL ++ lit "3. b") = PARAGRAPH.
Proof.
  assert (Hiff : block_to_block_type block = ORDERED_LIST
                 <-> numbered_from 1 (split block NL)).
  { rewrite <- ol_scan_spec. split.
    - unfold block_to_block_type.
      destruct (heading_match _); [discriminate|].
      destruct (_ && _ && _); [discriminate|].
      destruct (all_lines_quote _); [discriminate|].
      destruct (all_lines_ul _); [discriminate|].
      unfold all_lines_ol.
      destruct (nonempty_lines _); cbn [andb]; [|discriminate].
      destruct (ol_scan _ 1); [reflexivity|discriminate].
    - intros Hscan.
      assert (Hfirst : startswith (first_line (split block NL)) (lit "1. ")
                       = true).
      { pose proof (@split_aux_not_nil NL 0 block) as Hne.
        unfold split in *. destruct (split_aux NL 0 block) as [|l ls];
          [contradiction|].
        cbn [ol_scan] in Hscan. cbn [first_line hd].
        change (str_of_nat 1 ++ lit ". ") with (lit "1. ") in Hscan.
        destruct (startswith l (lit "1. ")); [reflexivity|discriminate]. }
      destruct (one_dot_excludes _ Hfirst) as (Hh & Hc & Hq & Hu).
      unfold block_to_block_type, all_lines_ol.
      rewrite Hh, Hc, Hq, Hu, Hscan, andb_false_r. cbn [andb].
      pose proof (@split_aux_not_nil NL 0 block) as Hne.
      unfold split. destruct (split_aux NL 0 block); [contradiction|].
      reflexivity. }
  assert (Hfall : ~ numbered_from 1 (split block NL) ->
                  earlier_rule block = false ->
                  block_to_block_type block = PARAGRAPH).
  { intros Hdev. rewrite <- ol_scan_spec in Hdev.
    unfold earlier_rule, block_to_block_type, all_lines_ol.
    destruct (heading_match _); [discriminate|].
    destruct (_ && _ && _); [discriminate|].
    destruct (all_lines_quote _); [discriminate|].
    destruct (all_lines_ul _); [discriminate|].
    destruct (ol_scan _ 1); [contradiction Hdev; reflexivity|].
    rewrite andb_false_r. reflexivity. }
  split; [exact Hiff|].
  split; [|split; reflexivity].
  intros Hdev. split; [intros H; apply Hdev, Hiff, H|].
  split; [exact (Hfall Hdev)|].
  intros c r Hb Hc. apply (Hfall Hdev).
  exact (digit_first_no_earlier_rule Hb Hc).
Qed.

Lemma ordered_list_iff_numbered_witness :
  block_to_block_type (lit "1. a" ++ NL ++ lit "3. b") <> ORDERED_LIST
  /\ block_to_block_type (lit "2. a") = PARAGRAPH.
Proof.
  split.
  - refine (proj1 (proj1 (proj2 (ordered_list_iff_numbered
                                   (lit "1. a" ++ NL ++ lit "3. b"))) _)).
    intros H. specialize (H 1 (lit "3. b") eq_refl). discriminate H.
  - refine (proj2 (proj2 (proj1 (proj2 (ordered_list_iff_numbered
                                          (lit "2. a"))) _))
              "2"%char (lit ". a") eq_refl eq_refl).
    intros H. specialize (H 0 (lit "2. a") eq_refl). discriminate H.
Defined.

End OrderedLists.

(** ** The inline tokenizer *)

Section Tokenizer.

Lemma TextType_eqb_eq (a b : TextType) : TextType_eqb a b = true <-> a = b.
Proof. destruct a, b; simpl; split; congruence. Qed.

(** *** Targets are carried by links and images only *)

Lemma Forall_snoc (A : Type) (P : A -> Prop) (l : list A) (x : A) :
  Forall P l -> P x -> Forall P (l ++ [x]).
Proof. intros Hl Hx. apply Forall_app. split; [assumption|]. auto. Qed.

Lemma append_text_ok (acc : list TextNode) (t : str) :
  Forall target_ok acc -> Forall target_ok (append_text acc t).
Proof.
  intros H. unfold append_text. destruct (truthy t); [|exact H].
  apply Forall_snoc; [exact H|reflexivity].
Qed.

Lemma split_matches_ok markup (kind : TextType) (matches : list (str * str)) :
  carries_target kind = true ->
  forall t acc,
    Forall target_ok acc ->
    Forall target_ok (fst (split_matches markup kind matches t acc)).
Proof.
  intros Hk.
  assert (Hnode : forall alt target,
            target_ok (mkTextNode alt kind (Some target))).
  { intros alt target. unfold target_ok. cbn [text_type url].
    rewrite Hk. eexists; reflexivity. }
  induction matches as [|[alt target] rest IH]; intros t acc Hacc;
    cbn [split_matches]; [exact Hacc|].
  destruct (split1 t (markup alt target)) as [|a [|b [|c l]]].
  1,2,4: destruct (str_eqb t (markup alt target)); cbn [fst];
    [apply Forall_snoc; auto|apply append_text_ok; exact Hacc].
  apply IH. apply Forall_snoc; [apply append_text_ok; exact Hacc|apply Hnode].
Qed.

Lemma split_nodes_loop_ok extract markup (kind : TextType) :
  carries_target kind = true ->
  forall old_nodes acc,
    Forall target_ok old_nodes ->
    Forall target_ok acc ->
    Forall target_ok (split_nodes_loop extract markup kind old_nodes acc).
Proof.
  intros Hk. induction old_nodes as [|n rest IH]; intros acc Hold Hacc;
    cbn [split_nodes_loop]; [exact Hacc|].
  inversion Hold as [|? ? Hn Hrest]; subst.
  destruct (negb (TextType_eqb (text_type n) TEXT)).
  - apply IH; [exact Hrest|]. apply Forall_snoc; assumption.
  - destruct (extract (text n)) as [|m ms] eqn:E.
    + apply IH; [exact Hrest|].
      destruct (truthy (text n)); [apply Forall_snoc|]; assumption.
    + pose proof (@split_matches_ok markup kind (m :: ms) Hk (text n) acc Hacc)
        as Hm.
      destruct (split_matches markup kind (m :: ms) (text n) acc)
        as [new_nodes rest_text].
      apply IH; [exact Hrest|]. apply append_text_ok. exact Hm.
Qed.

Lemma delimiter_parts_ok (new_type : TextType) (parts : list str) :
  carries_target new_type = false ->
  forall i acc,
    Forall target_ok acc ->
    Forall target_ok (delimiter_parts i parts new_type acc).
Proof.
  intros Hk. induction parts as [|p parts IH]; intros i acc Hacc;
    cbn [delimiter_parts]; [exact Hacc|].
  destruct (negb (truthy p)); [apply IH; exact Hacc|].
  destruct (Nat.even i); apply IH; apply Forall_snoc; try exact Hacc.
  - reflexivity.
  - unfold target_ok. cbn [text_type url]. rewrite Hk. reflexivity.
Qed.

Lemma split_nodes_delimiter_loop_ok (delimiter : str) (new_type : TextType) :
  carries_target new_type = false ->
  forall old_nodes acc nodes,
    Forall target_ok old_nodes ->
    Forall target_ok acc ->
    split_nodes_delimiter_loop old_nodes delimiter new_type acc = OK nodes ->
    Forall target_ok nodes.
Proof.
  intros Hk. induction old_nodes as [|n rest IH]; intros acc nodes Hold Hacc;
    cbn [split_nodes_delimiter_loop].
  - intros H; injection H as <-. exact Hacc.
  - inversion Hold as [|? ? Hn Hrest]; subst.
    destruct (negb (TextType_eqb (text_type n) TEXT)).
    + apply IH; [exact Hrest|]. apply Forall_snoc; assumption.
    + destruct (Nat.even (length (split (text n) delimiter))).
      * destruct (1 <? length (split (text n) delimiter)); [discriminate|].
        apply IH; [exact Hrest|]. apply Forall_snoc; assumption.
      * apply IH; [exact Hrest|]. apply delimiter_parts_ok; assumption.
Qed.

(** C4. In every sequence the tokenizer returns, a span has a target
    exactly when its kind is [LINK] or [IMAGE] and has none when its kind
    is [TEXT], [BOLD], [ITALIC] or [CODE]; each pass of the pipeline
    (images, links, and the three delimiter passes) preserves this. *)
Theorem tokenizer_target_invariant :
  (forall t nodes, text_to_textnodes t = OK nodes -> Forall target_ok nodes)
  /\ (forall nodes,
        Forall target_ok nodes -> Forall target_ok (split_nodes_image nodes))
  /\ (forall nodes,
        Forall target_ok nodes -> Forall target_ok (split_nodes_link nodes))
  /\ (forall nodes delimiter kind nodes',
        In kind [BOLD; ITALIC; CODE] ->
        Forall target_ok nodes ->
        split_nodes_delimiter nodes delimiter kind = OK nodes' ->
        Forall target_ok nodes').
Proof.
  assert (Himg : forall nodes,
            Forall target_ok nodes -> Forall target_ok (split_nodes_image nodes))
    by (intros nodes H; apply split_nodes_loop_ok; auto).
  assert (Hlnk : forall nodes,
            Forall target_ok nodes -> Forall target_ok (split_nodes_link nodes))
    by (intros nodes H; apply split_nodes_loop_ok; auto).
  assert (Hdel : forall nodes delimiter kind nodes',
            In kind [BOLD; ITALIC; CODE] ->
            Forall target_ok nodes ->
            split_nodes_delimiter nodes delimiter kind = OK nodes' ->
            Forall target_ok nodes').
  { intros nodes delimiter kind nodes' Hk Hn H.
    eapply split_nodes_delimiter_loop_ok; [|exact Hn|constructor|exact H].
    cbn [In] in Hk. destruct Hk as [<-|[<-|[<-|[]]]]; reflexivity. }
  split; [|auto].
  intros t nodes. unfold text_to_textnodes.
  set (spans0 := split_nodes_link (split_nodes_image [mkTextNode t TEXT None])).
  assert (H0 : Forall target_ok spans0).
  { apply Hlnk, Himg. constructor; [reflexivity|constructor]. }
  destruct (split_nodes_delimiter spans0 (lit "**") BOLD) as [s1|] eqn:E1;
    cbn [bind]; [|discriminate].
  destruct (split_nodes_delimiter s1 (lit "_") ITALIC) as [s2|] eqn:E2;
    cbn [bind]; [|discriminate].
  destruct (split_nodes_delimiter s2 (lit "`") CODE) as [s3|] eqn:E3;
    cbn [bind]; [|discriminate].
  intros H; injection H as <-.
  eapply Hdel with (3 := E3); [cbn; auto|].
  eapply Hdel with (3 := E2); [cbn; auto|].
  eapply Hdel with (3 := E1); [cbn; auto|exact H0].
Qed.

Lemma tokenizer_target_invariant_witness :
  Forall target_ok
    [mkTextNode (lit "x ") TEXT None;
     mkTextNode (lit "a") IMAGE (Some (lit "b"));
     mkTextNode (lit " and ") TEXT None;
     mkTextNode (lit "c") LINK (Some (lit "d"));
     mkTextNode (lit "e") BOLD None].
Proof.
  exact (proj1 tokenizer_target_invariant
           (lit "x ![a](b) and [c](d)**e**") _ eq_refl).
Defined.

(** *** Unmatched delimiters *)

Lemma split_parts_even_gt1 (s d : str) :
  Nat.even (length (split s d)) = true -> (1 <? length (split s d)) = true.
Proof.
  intros H. apply Nat.ltb_lt.
  pose proof (split_length d s) as Hl.
  destruct (length (split s d)) as [|[|k]]; [lia|discriminate|lia].
Qed.

Lemma split_nodes_delimiter_loop_err (delimiter : str) (new_type : TextType)
    (old_nodes : list TextNode) :
  forall acc,
    (exists e, split_nodes_delimiter_loop old_nodes delimiter new_type acc
               = Err e)
    <-> pass_fails delimiter old_nodes.
Proof.
  unfold pass_fails, unmatched.
  induction old_nodes as [|n rest IH]; intros acc;
    cbn [split_nodes_delimiter_loop].
  - split; [intros [e He]; discriminate|intros H; inversion H].
  - destruct (TextType_eqb (text_type n) TEXT) eqn:Et; cbn [negb].
    + apply TextType_eqb_eq in Et.
      destruct (Nat.even (length (split (text n) delimiter))) eqn:Ev.
      * rewrite (split_parts_even_gt1 _ _ Ev).
        split; [intros _; apply Exists_cons_hd; auto|intros _; eexists; reflexivity].
      * rewrite IH. split; [apply Exists_cons_tl|].
        intros H; inversion H as [? ? [_ Hev]|]; subst; [congruence|assumption].
    + rewrite IH. split; [apply Exists_cons_tl|].
      intros H; inversion H as [? ? [Hty _]|]; subst; [|assumption].
      apply TextType_eqb_eq in Hty. congruence.
Qed.

Lemma split_nodes_delimiter_loop_err_kind (delimiter : str)
    (new_type : TextType) (old_nodes : list TextNode) :
  forall acc e,
    split_nodes_delimiter_loop old_nodes delimiter new_type acc = Err e ->
    exists n, In n old_nodes /\ unmatched delimiter n
              /\ e = MalformedInline delimiter (text n).
Proof.
  unfold unmatched.
  induction old_nodes as [|n rest IH]; intros acc e;
    cbn [split_nodes_delimiter_loop]; [discriminate|].
  assert (Htl : forall acc',
            split_nodes_delimiter_loop rest delimiter new_type acc' = Err e ->
            exists n0, In n0 (n :: rest)
              /\ (text_type n0 = TEXT
                  /\ Nat.even (length (split (text n0) delimiter)) = true)
              /\ e = MalformedInline delimiter (text n0)).
  { intros acc' H. destruct (IH _ _ H) as (n0 & Hin & Hu & He).
    exists n0. split; [right; exact Hin|auto]. }
  destruct (TextType_eqb (text_type n) TEXT) eqn:Et; cbn [negb];
    [|apply Htl].
  apply TextType_eqb_eq in Et.
  destruct (Nat.even (length (split (text n) delimiter))) eqn:Ev;
    [|apply Htl].
  rewrite (split_parts_even_gt1 _ _ Ev).
  intros H; injection H as <-.
  exists n. split; [left; reflexivity|auto].
Qed.

Lemma split_nodes_delimiter_err (delimiter : str) (new_type : TextType)
    (nodes : list TextNode) :
  (exists t, split_nodes_delimiter nodes delimiter new_type
             = Err (MalformedInline delimiter t))
  <-> pass_fails delimiter nodes.
Proof.
  unfold split_nodes_delimiter.
  rewrite <- (split_nodes_delimiter_loop_err delimiter new_type nodes []).
  split.
  - intros [t Ht]; eexists; exact Ht.
  - intros [e He].
    destruct (split_nodes_delimiter_loop_err_kind _ _ _ _ He)
      as (n & _ & _ & ->).
    eexists; exact He.
Qed.

Lemma split_nodes_delimiter_total (delimiter : str) (new_type : TextType)
    (nodes : list TextNode) :
  (exists nodes', split_nodes_delimiter nodes delimiter new_type = OK nodes')
  \/ (exists t, split_nodes_delimiter nodes delimiter new_type
                = Err (MalformedInline delimiter t)).
Proof.
  destruct (split_nodes_delimiter nodes delimiter new_type) as [r|e] eqn:E.
  - left; eexists; reflexivity.
  - right.
    destruct (split_nodes_delimiter_loop_err_kind _ _ _ _ E)
      as (n & _ & _ & ->).
    eexists; reflexivity.
Qed.

(** C3. The tokenizer fails, and then with [MalformedInline], exactly
    when one of the passes for "**", "_" and "`" splits a text span into
    an even number of parts. The number of parts is even exactly when the
    number of occurrences of the delimiter is odd (hence not zero); a
    delimiter that does not occur gives a single part and no failure. In
    particular the tokenizer fails on "broken `code". *)
Theorem tokenizer_fails_iff_unmatched (t : str) :
  ((exists d s, text_to_textnodes t = Err (MalformedInline d s))
   <-> some_pass_fails t)
  /\ (forall e, text_to_textnodes t = Err e ->
        exists d s, e = MalformedInline d s)
  /\ (forall s d : str,
        Nat.even (length (split s d)) = true <-> Nat.odd (count s d) = true)
  /\ (forall s d : str,
        count s d = 0 ->
        length (split s d) = 1 /\ Nat.even (length (split s d)) = false)
  /\ text_to_textnodes (lit "broken `code")
     = Err (MalformedInline (lit "`") (lit "broken `code")).
Proof.
  assert (Hmain : (exists d s, text_to_textnodes t = Err (MalformedInline d s))
                  <-> some_pass_fails t).
  { unfold some_pass_fails, text_to_textnodes. fold (extracted t).
    repeat rewrite <- split_nodes_delimiter_err with (new_type := BOLD).
    destruct (split_nodes_delimiter (extracted t) (lit "**") BOLD)
      as [s1|e1] eqn:E1; cbn [bind].
    - destruct (split_nodes_delimiter s1 (lit "_") ITALIC) as [s2|e2] eqn:E2;
        cbn [bind].
      + destruct (split_nodes_delimiter s2 (lit "`") CODE) as [s3|e3] eqn:E3;
          cbn [bind].
        * split; [intros (d & s & H); discriminate|].
          intros [[s H]|(x & Hx & [Hi|(y & Hy & Hc)])]; [discriminate| |].
          -- injection Hx as <-.
             apply (split_nodes_delimiter_err _ ITALIC) in Hi as [s Hs].
             congruence.
          -- injection Hx as <-. rewrite E2 in Hy. injection Hy as <-.
             apply (split_nodes_delimiter_err _ CODE) in Hc as [s Hs].
             congruence.
        * split; [|intros _].
          -- intros _. right. exists s1. split; [reflexivity|].
             right. exists s2. split; [exact E2|].
             apply (split_nodes_delimiter_err _ CODE).
             destruct (split_nodes_delimiter_total (lit "`") CODE s2)
               as [[r Hr]|[s Hs]]; [congruence|]. eexists; exact Hs.
          -- destruct (split_nodes_delimiter_total (lit "`") CODE s2)
               as [[r Hr]|[s Hs]]; [congruence|].
             exists (lit "`"), s. congruence.
      + split; [|intros _].
        * intros _. right. exists s1. split; [reflexivity|]. left.
          apply (split_nodes_delimiter_err _ ITALIC).
          destruct (split_nodes_delimiter_total (lit "_") ITALIC s1)
            as [[r Hr]|[s Hs]]; [congruence|]. eexists; exact Hs.
        * destruct (split_nodes_delimiter_total (lit "_") ITALIC s1)
            as [[r Hr]|[s Hs]]; [congruence|].
          exists (lit "_"), s. congruence.
    - destruct (split_nodes_delimiter_total (lit "**") BOLD (extracted t))
        as [[r Hr]|[s Hs]]; [congruence|].
      split; [intros _; left; exists s; congruence|].
      intros _. exists (lit "**"), s. congruence. }
  split; [exact Hmain|].
  split; [|split; [|split]].
  - intros e. unfold text_to_textnodes. fold (extracted t).
    destruct (split_nodes_delimiter_total (lit "**") BOLD (extracted t))
      as [[s1 ->]|[s ->]]; cbn [bind];
      [|intros H; injection H as <-; eauto].
    destruct (split_nodes_delimiter_total (lit "_") ITALIC s1)
      as [[s2 ->]|[s ->]]; cbn [bind];
      [|intros H; injection H as <-; eauto].
    destruct (split_nodes_delimiter_total (lit "`") CODE s2)
      as [[s3 ->]|[s ->]]; cbn [bind];
      [discriminate|intros H; injection H as <-; eauto].
  - intros s d. rewrite split_length, Nat.add_1_r, Nat.even_succ. reflexivity.
  - intros s d H. rewrite split_length, H. split; reflexivity.
  - reflexivity.
Qed.

Lemma tokenizer_fails_iff_unmatched_witness :
  some_pass_fails (lit "broken `code").
Proof.
  apply (proj1 (tokenizer_fails_iff_unmatched (lit "broken `code"))).
  exists (lit "`"), (lit "broken `code"). reflexivity.
Defined.

End Tokenizer.

(** ** Code blocks *)

Section CodeBlocks.

Lemma is_nl_true (c : ascii) : is_nl c = true <-> c = nl.
Proof.
  unfold is_nl, mem, NL. cbn [existsb]. rewrite orb_false_r.
  apply Ascii.eqb_eq.
Qed.

Lemma strip_chars_spec (s chars : str) :
  exists lead trail,
    s = lead ++ strip_chars s chars ++ trail
    /\ forallb (fun c => mem c chars) lead = true
    /\ forallb (fun c => mem c chars) trail = true
    /\ (forall c r, strip_chars s chars = c :: r -> mem c chars = false)
    /\ (forall c r, rev (strip_chars s chars) = c :: r -> mem c chars = false).
Proof. exact (strip_with_spec (fun c => mem c chars) s). Qed.

Lemma fenced_decompose (block : str) :
  (6 <? length block) = true ->
  startswith block fence = true ->
  endswith block fence = true ->
  block = fence ++ slice_3_m3 block ++ fence.
Proof.
  intros Hlen Hs He. apply Nat.ltb_lt in Hlen.
  apply startswith_spec in Hs as [r Hr].
  apply startswith_spec in He as [r' Hr'].
  assert (Hb : block = rev r' ++ fence).
  { rewrite <- (rev_involutive block), Hr', rev_app_distr, rev_involutive.
    reflexivity. }
  assert (Hlr' : length r' = length block - 3).
  { rewrite Hb. rewrite length_app, length_rev. cbn. lia. }
  unfold slice_3_m3.
  assert (Hr3 : r = skipn 3 block) by (rewrite Hr; reflexivity).
  rewrite <- Hr3.
  assert (Hlr : length r = length block - 3).
  { rewrite Hr. cbn. lia. }
  assert (Htail : skipn (length block - 3 - 3) r = fence).
  { assert (Hsk : skipn (length block - 3) block = fence).
    { rewrite Hb at 2. rewrite skipn_app, length_rev, Hlr'.
      rewrite Nat.sub_diag. cbn [skipn].
      rewrite skipn_all2 by (rewrite length_rev; lia). reflexivity. }
    rewrite Hr3, skipn_skipn.
    replace (length block - 3 - 3 + 3) with (length block - 3) by lia.
    exact Hsk. }
  rewrite <- Htail at 2.
  rewrite firstn_skipn. exact Hr.
Qed.

Lemma code_block_classified (block : str) :
  block_to_block_type block = CODE_BLOCK ->
  (6 <? length block) = true
  /\ startswith block fence = true
  /\ endswith block fence = true.
Proof.
  unfold block_to_block_type.
  destruct (heading_match _); [discriminate|].
  destruct ((6 <? length block) && startswith block fence
            && endswith block fence) eqn:E.
  - intros _. apply andb_true_iff in E as [E E3].
    apply andb_true_iff in E as [E1 E2]. auto.
  - destruct (all_lines_quote _); [discriminate|].
    destruct (all_lines_ul _); [discriminate|].
    destruct (all_lines_ol _); discriminate.
Qed.

(** Called directly on a string with a blank line after the fence (a
    string that [markdown_to_blocks] never returns), the conversion
    removes both leading newlines. *)
Remark code_block_direct_call_blank_line :
  let block := fence ++ NL ++ NL ++ lit "x" ++ NL ++ fence in
  block_to_block_type block = CODE_BLOCK
  /\ code_block_to_html_node block
     = OK (ParentNode (Some (lit "pre"))
             (Some [LeafNode (Some (lit "x")) (Some (lit "code")) None]) None)
  /\ code_block_one_newline block
     = OK (ParentNode (Some (lit "pre"))
             (Some [LeafNode (Some (NL ++ lit "x")) (Some (lit "code")) None])
             None)
  /\ code_block_to_html_node block <> code_block_one_newline block.
Proof.
  cbv zeta. split; [reflexivity|]. split; [reflexivity|].
  split; [reflexivity|]. discriminate.
Qed.

(** The shape of a code block and of its conversion. *)
Lemma code_block_decompose (block : str) :
  block_to_block_type block = CODE_BLOCK ->
  exists lead content trail,
    block = fence ++ lead ++ content ++ trail ++ fence
    /\ Forall (fun c => c = nl) lead
    /\ Forall (fun c => c = nl) trail
    /\ hd_error content <> Some nl
    /\ hd_error (rev content) <> Some nl
    /\ code_block_to_html_node block
       = OK (ParentNode (Some (lit "pre"))
               (Some [LeafNode (Some content) (Some (lit "code")) None])
               None).
Proof.
  intros Hc. destruct (code_block_classified _ Hc) as (Hlen & Hs & He).
  destruct (strip_chars_spec (slice_3_m3 block) NL)
    as (lead & trail & Hmid & Hlead & Htrail & Hhd & Hlast).
  exists lead, (strip_chars (slice_3_m3 block) NL), trail.
  assert (Hnl : forall l, forallb (fun c => mem c NL) l = true ->
                          Forall (fun c => c = nl) l).
  { intros l Hl. apply Forall_forall. intros c Hin.
    apply is_nl_true. exact (proj1 (forallb_forall _ _) Hl c Hin). }
  assert (Hnot : forall l,
            (forall c r, l = c :: r -> mem c NL = false) ->
            hd_error l <> Some nl).
  { intros [|c r] Hl; cbn [hd_error]; [discriminate|].
    intros Heq; injection Heq as ->.
    specialize (Hl nl r eq_refl). discriminate Hl. }
  split; [|split; [|split; [|split; [|split]]]]; auto.
  - rewrite (fenced_decompose _ Hlen Hs He) at 1.
    rewrite Hmid at 1. repeat rewrite <- app_assoc. reflexivity.
  - unfold code_block_to_html_node. rewrite Hs, He. reflexivity.
Qed.

End CodeBlocks.

(** ** Quote blocks *)

Section QuoteBlocks.

(** The second [lstrip] of [quote_content_line] finds nothing to remove:
    the line is left without any leading [>] or space. *)
Lemma quote_content_line_all (line : str) :
  quote_content_line line = dropwhile is_marker line.
Proof.
  unfold quote_content_line, lstrip_chars. fold is_marker.
  destruct (dropwhile is_marker line) as [|c r] eqn:E; [reflexivity|].
  pose proof (dropwhile_head _ _ E) as Hc.
  cbn [dropwhile].
  replace (mem c (lit ">")) with false; [reflexivity|].
  unfold is_marker, mem in *. cbn [lit list_ascii_of_string existsb] in *.
  destruct (Ascii.eqb c ">"); [discriminate|reflexivity].
Qed.

(** C1. On the quote blocks "> > a" and ">  a" the conversion removes
    every leading [>] and space and yields the text "a", where removing
    one [>] and at most one space from the line would yield "> a" and
    " a". *)
Theorem quote_block_strips_every_marker :
  block_to_block_type (lit "> > a") = QUOTE
  /\ quote_block_to_html_node (lit "> > a")
     = OK (ParentNode (Some (lit "blockquote"))
             (Some [LeafNode (Some (lit "a")) None None]) None)
  /\ quote_block_one_marker (lit "> > a")
     = OK (ParentNode (Some (lit "blockquote"))
             (Some [LeafNode (Some (lit "> a")) None None]) None)
  /\ block_to_block_type (lit ">  a") = QUOTE
  /\ quote_block_to_html_node (lit ">  a")
     = OK (ParentNode (Some (lit "blockquote"))
             (Some [LeafNode (Some (lit "a")) None None]) None)
  /\ quote_block_one_marker (lit ">  a")
     = OK (ParentNode (Some (lit "blockquote"))
             (Some [LeafNode (Some (lit " a")) None None]) None).
Proof. repeat split; reflexivity. Qed.

End QuoteBlocks.

(** ** The block segmenter *)

Section Segmenter.

(** The parts of a split do not contain the separator. *)
Lemma split_aux_sep_free (sep : str) (k : nat) (s : str) :
  Forall (fun p => sep_free sep p = true) (split_aux sep k s).
Proof.
  revert k; induction s as [|c s IH]; intros k; cbn [split_aux].
  - repeat constructor.
  - destruct k; [|apply IH].
    destruct (startswith (c :: s) sep) eqn:E; [constructor; [reflexivity|apply IH]|].
    pose proof (IH 0) as IH0.
    destruct (split_aux sep 0 s) as [|h t] eqn:Es; cbn [cons_head].
    + exfalso. exact (split_aux_not_nil _ _ _ Es).
    + inversion IH0 as [|? ? Hh Ht]; subst. constructor; [|exact Ht].
      cbn [sep_free]. rewrite Hh, andb_true_r.
      destruct (split_aux_head_prefix _ _ Es) as [r ->].
      destruct (startswith (c :: h) sep) eqn:Ec; [|reflexivity].
      apply (startswith_app _ _ r) in Ec. cbn [app] in Ec. congruence.
Qed.

Lemma sep_free_suffix (sep a s : str) :
  sep_free sep (a ++ s) = true -> sep_free sep s = true.
Proof.
  induction a as [|c a IH]; cbn [app sep_free]; [auto|].
  intros H. apply andb_true_iff in H as [_ H]. auto.
Qed.

Lemma sep_free_prefix (sep s b : str) :
  sep_free sep (s ++ b) = true -> sep_free sep s = true.
Proof.
  induction s as [|c s IH]; [reflexivity|].
  change ((c :: s) ++ b) with (c :: (s ++ b)). cbn [sep_free].
  intros H. apply andb_true_iff in H as [H1 H2].
  rewrite (IH H2), andb_true_r.
  destruct (startswith (c :: s) sep) eqn:E; [|reflexivity].
  apply (startswith_app _ _ b) in E. cbn [app] in E.
  rewrite E in H1. discriminate.
Qed.

(** A string without the separator is its own single part. *)
Lemma split_aux_free (sep s : str) :
  sep_free sep s = true -> split_aux sep 0 s = [s].
Proof.
  induction s as [|c s IH]; cbn [split_aux sep_free]; [reflexivity|].
  intros H. apply andb_true_iff in H as [H1 H2].
  destruct (startswith (c :: s) sep); [discriminate|].
  rewrite (IH H2). reflexivity.
Qed.

(** Splitting [b ++ sep ++ r] cuts after [b] when no occurrence of the
    separator starts inside [b]. *)
Lemma split_aux_app_sep (sep b r : str) :
  sep <> [] ->
  clear_before sep b (sep ++ r) = true ->
  split_aux sep 0 (b ++ sep ++ r) = b :: split_aux sep 0 r.
Proof.
  intros Hsep. induction b as [|c b IH]; intros H.
  - destruct sep as [|a sep']; [contradiction|].
    change ([] ++ (a :: sep') ++ r) with (a :: (sep' ++ r)).
    cbn [split_aux].
    change (a :: sep' ++ r) with ((a :: sep') ++ r).
    rewrite startswith_self_app.
    replace (length (a :: sep') - 1) with (length sep')
      by (cbn [length]; lia).
    rewrite split_aux_skip. reflexivity.
  - cbn [clear_before] in H. apply andb_true_iff in H as [H1 H2].
    change ((c :: b) ++ sep ++ r) with (c :: (b ++ sep ++ r)) in *.
    cbn [split_aux].
    destruct (startswith (c :: b ++ sep ++ r) sep); [discriminate|].
    rewrite (IH H2). reflexivity.
Qed.

Lemma startswith_two (a b c d : ascii) (s : str) :
  startswith (c :: d :: s) [a; b] = Ascii.eqb a c && Ascii.eqb b d.
Proof.
  cbn [startswith]. rewrite startswith_nil, andb_true_r. reflexivity.
Qed.

Lemma clear_before_block (b r : str) :
  sep_free NLNL b = true ->
  (forall c r', rev b = c :: r' -> is_space c = false) ->
  clear_before NLNL b (NLNL ++ r) = true.
Proof.
  induction b as [|c b IH]; intros Hfree Hlast; [reflexivity|].
  cbn [clear_before]. cbn [sep_free] in Hfree.
  apply andb_true_iff in Hfree as [H1 H2].
  apply andb_true_iff. split.
  - destruct b as [|d b'].
    + specialize (Hlast c [] eq_refl).
      change ([c] ++ NLNL ++ r) with (c :: nl :: nl :: r).
      change NLNL with [nl; nl]. rewrite startswith_two.
      destruct (Ascii.eqb nl c) eqn:E; [|reflexivity].
      apply Ascii.eqb_eq in E. subst c. discriminate Hlast.
    + change ((c :: d :: b') ++ NLNL ++ r)
        with (c :: d :: (b' ++ NLNL ++ r)).
      change NLNL with [nl; nl] in H1 |- *.
      rewrite startswith_two in *. exact H1.
  - apply IH; [exact H2|].
    intros c' r' Hr. cbn [rev] in Hlast.
    apply (Hlast c' (r' ++ [c])). rewrite Hr. reflexivity.
Qed.

Lemma strip_block_ok (b : str) : block_ok b -> strip b = b.
Proof.
  intros (_ & Hhd & Hlast & _).
  exact (@strip_with_fixed is_space b Hhd Hlast).
Qed.

Lemma filter_blocks_acc (raw acc : list str) :
  filter_blocks raw acc = acc ++ filter_blocks raw [].
Proof.
  revert acc; induction raw as [|p raw IH]; intros acc; cbn [filter_blocks].
  - rewrite app_nil_r. reflexivity.
  - destruct (negb (truthy p)); [apply IH|].
    destruct (truthy (strip p)); [|apply IH].
    rewrite IH, (IH ([] ++ [strip p])), app_assoc. reflexivity.
Qed.

Lemma filter_blocks_ok (raw : list str) :
  Forall (fun p => sep_free NLNL p = true) raw ->
  Forall block_ok (filter_blocks raw []).
Proof.
  induction raw as [|p raw IH]; intros H; cbn [filter_blocks];
    [constructor|].
  inversion H as [|? ? Hp Hraw]; subst.
  destruct (negb (truthy p)); [auto|].
  destruct (truthy (strip p)) eqn:Et; [|auto].
  rewrite filter_blocks_acc. constructor; [|auto].
  destruct (strip_with_spec is_space p)
    as (lead & trail & Hdec & _ & _ & Hhd & Hlast).
  change (strip_with is_space p) with (strip p) in *.
  repeat split.
  - intros E. rewrite E in Et. discriminate.
  - exact Hhd.
  - exact Hlast.
  - rewrite Hdec in Hp.
    apply sep_free_suffix in Hp. apply sep_free_prefix in Hp. exact Hp.
Qed.

Lemma markdown_to_blocks_ok (markdown : str) :
  Forall block_ok (markdown_to_blocks markdown).
Proof. apply filter_blocks_ok, split_aux_sep_free. Qed.

(** Segmenting the blocks joined by blank lines gives the blocks back. *)
Lemma markdown_to_blocks_join (blocks : list str) :
  Forall block_ok blocks ->
  markdown_to_blocks (join NLNL blocks) = blocks.
Proof.
  unfold markdown_to_blocks, split. change (NL ++ NL) with NLNL.
  induction blocks as [|b rest IH]; intros H; [reflexivity|].
  inversion H as [|? ? Hb Hrest]; subst.
  pose proof (strip_block_ok Hb) as Hstrip.
  destruct Hb as (Hne & Hhd & Hlast & Hfree).
  assert (Hkeep : forall raw, filter_blocks (b :: raw) []
                              = b :: filter_blocks raw []).
  { intros raw. cbn [filter_blocks]. rewrite Hstrip.
    destruct b; [contradiction|]. cbn [truthy negb].
    rewrite filter_blocks_acc. reflexivity. }
  destruct rest as [|b2 rest'].
  - cbn [join]. rewrite (split_aux_free _ _ Hfree), Hkeep. reflexivity.
  - change (join NLNL (b :: b2 :: rest'))
      with (b ++ NLNL ++ join NLNL (b2 :: rest')).
    rewrite split_aux_app_sep;
      [|discriminate|apply clear_before_block; assumption].
    rewrite Hkeep, (IH Hrest). reflexivity.
Qed.

(** C6. No block of a segmented document is empty or made of whitespace
    only, and segmentation is idempotent: the blocks joined with a blank
    line segment into the same blocks, hence into as many. *)
Theorem markdown_to_blocks_idempotent (markdown : str) :
  Forall (fun b => b <> [] /\ forallb is_space b = false)
    (markdown_to_blocks markdown)
  /\ markdown_to_blocks (join (NL ++ NL) (markdown_to_blocks markdown))
     = markdown_to_blocks markdown
  /\ length (markdown_to_blocks
               (join (NL ++ NL) (markdown_to_blocks markdown)))
     = length (markdown_to_blocks markdown).
Proof.
  pose proof (markdown_to_blocks_ok markdown) as Hok.
  pose proof (markdown_to_blocks_join Hok) as Hjoin.
  change NLNL with (NL ++ NL) in Hjoin.
  split; [|split; [exact Hjoin|rewrite Hjoin; reflexivity]].
  eapply Forall_impl; [|exact Hok].
  intros b (Hne & Hhd & _ & _). split; [exact Hne|].
  destruct b as [|c r]; [contradiction|].
  cbn [forallb]. rewrite (Hhd c r eq_refl). reflexivity.
Qed.

End Segmenter.

(** ** Code blocks of a segmented document *)

Section SegmentedCodeBlocks.

(** In a block produced by the segmenter there is no blank line, so the
    newlines removed around the content of a code block are at most one
    at each end. *)
Lemma code_block_segmented (block : str) :
  block_ok block ->
  block_to_block_type block = CODE_BLOCK ->
  exists lead content trail,
    block = fence ++ lead ++ content ++ trail ++ fence
    /\ Forall (fun c => c = nl) lead /\ length lead <= 1
    /\ Forall (fun c => c = nl) trail /\ length trail <= 1
    /\ code_block_to_html_node block
       = OK (ParentNode (Some (lit "pre"))
               (Some [LeafNode (Some content) (Some (lit "code")) None])
               None).
Proof.
  intros (_ & _ & _ & Hfree) Hc.
  destruct (code_block_decompose _ Hc)
    as (lead & content & trail & Hb & Hlead & Htrail & _ & _ & Hres).
  exists lead, content, trail.
  assert (Hrun : forall l, Forall (fun c => c = nl) l ->
                           sep_free NLNL l = true -> length l <= 1).
  { intros [|c [|d l]] Hl Hf; cbn [length]; [lia|lia|].
    inversion Hl as [|? ? -> Hl']; subst.
    inversion Hl' as [|? ? -> _]; subst.
    cbn [sep_free] in Hf. change NLNL with [nl; nl] in Hf.
    rewrite startswith_two, !Ascii.eqb_refl in Hf. discriminate Hf. }
  repeat split; auto.
  - apply Hrun; [exact Hlead|].
    rewrite Hb in Hfree.
    apply sep_free_suffix in Hfree. apply sep_free_prefix in Hfree.
    exact Hfree.
  - apply Hrun; [exact Htrail|].
    rewrite Hb in Hfree.
    do 3 apply sep_free_suffix in Hfree. apply sep_free_prefix in Hfree.
    exact Hfree.
Qed.

Lemma nl_run_short (l : str) :
  Forall (fun c => c = nl) l -> sep_free NLNL l = true ->
  l = [] \/ l = [nl].
Proof.
  intros Hl Hf. destruct l as [|c [|d l]]; [left; reflexivity| |].
  - inversion Hl as [|? ? -> _]; subst. right; reflexivity.
  - inversion Hl as [|? ? -> Hl']; subst.
    inversion Hl' as [|? ? -> _]; subst.
    cbn [sep_free] in Hf. change NLNL with [nl; nl] in Hf.
    rewrite startswith_two, !Ascii.eqb_refl in Hf. discriminate Hf.
Qed.

Lemma drop_one_nl_keep (c : ascii) (r : str) :
  Ascii.eqb c nl = false -> drop_one_nl (c :: r) = c :: r.
Proof. intros H. cbn [drop_one_nl]. rewrite H. reflexivity. Qed.

Lemma drop_one_nl_nl (r : str) : drop_one_nl (nl :: r) = r.
Proof. cbn [drop_one_nl]. rewrite Ascii.eqb_refl. reflexivity. Qed.

(** Without a blank line in the string, removing every leading and
    trailing newline removes at most one at each end. *)
Lemma strip_newlines_one (m : str) :
  sep_free NLNL m = true -> strip_chars m NL = strip_one_newline m.
Proof.
  intros Hfree.
  destruct (strip_chars_spec m NL)
    as (lead & trail & Hmid & Hlead & Htrail & Hhd & Hlast).
  remember (strip_chars m NL) as content eqn:Hcontent. clear Hcontent.
  assert (Hnl : forall l, forallb (fun c => mem c NL) l = true ->
                          Forall (fun c => c = nl) l).
  { intros l Hl. apply Forall_forall. intros c Hin.
    apply is_nl_true. exact (proj1 (forallb_forall _ _) Hl c Hin). }
  assert (Hneq : forall c, mem c NL = false -> Ascii.eqb c nl = false).
  { intros c Hc. unfold mem, NL in Hc. cbn [existsb] in Hc.
    rewrite orb_false_r in Hc. exact Hc. }
  assert (Hl1 : lead = [] \/ lead = [nl]).
  { apply nl_run_short; [apply Hnl; exact Hlead|].
    rewrite Hmid in Hfree. exact (sep_free_prefix _ _ _ Hfree). }
  assert (Ht1 : trail = [] \/ trail = [nl]).
  { apply nl_run_short; [apply Hnl; exact Htrail|].
    rewrite Hmid in Hfree.
    do 2 apply sep_free_suffix in Hfree. exact Hfree. }
  rewrite Hmid. unfold strip_one_newline.
  destruct content as [|c r].
  - rewrite Hmid in Hfree.
    destruct Hl1 as [->| ->], Ht1 as [->| ->];
      try reflexivity; discriminate Hfree.
  - pose proof (Hneq _ (Hhd c r eq_refl)) as Hc.
    assert (Hfront : drop_one_nl (lead ++ (c :: r) ++ trail)
                     = (c :: r) ++ trail).
    { destruct Hl1 as [->| ->]; cbn [app].
      - apply drop_one_nl_keep. exact Hc.
      - apply drop_one_nl_nl. }
    rewrite Hfront, rev_app_distr.
    destruct (rev (c :: r)) as [|d r'] eqn:Er.
    { apply (f_equal (@length ascii)) in Er.
      rewrite length_rev in Er. discriminate Er. }
    pose proof (Hneq _ (Hlast d r' eq_refl)) as Hd.
    assert (Hback : drop_one_nl (rev trail ++ d :: r') = d :: r').
    { destruct Ht1 as [->| ->]; cbn [rev app].
      - apply drop_one_nl_keep. exact Hd.
      - apply drop_one_nl_nl. }
    rewrite Hback, <- Er, rev_involutive. reflexivity.
Qed.

Lemma code_block_one_newline_ok (block : str) :
  block_ok block ->
  block_to_block_type block = CODE_BLOCK ->
  block = fence ++ slice_3_m3 block ++ fence
  /\ code_block_to_html_node block = code_block_one_newline block.
Proof.
  intros (_ & _ & _ & Hfree) Hc.
  destruct (code_block_classified _ Hc) as (Hlen & Hs & He).
  pose proof (fenced_decompose _ Hlen Hs He) as Hb.
  split; [exact Hb|].
  unfold code_block_to_html_node, code_block_one_newline.
  rewrite Hs, He. cbn [negb orb].
  rewrite strip_newlines_one; [reflexivity|].
  rewrite Hb in Hfree.
  apply sep_free_suffix in Hfree. apply sep_free_prefix in Hfree.
  exact Hfree.
Qed.

(** C2. For every block of a segmented document that is classified as
    code, the block is a fence, a middle part and a fence; the conversion
    removes the two fences, then one newline at the front of the middle
    part if there is one and one at its back if there is one, and no
    more; it does not tokenize what is left and wraps it as a literal
    leaf tagged [code] inside a [pre] parent. *)
Theorem code_block_strips_one_newline (markdown block : str) :
  In block (markdown_to_blocks markdown) ->
  block_to_block_type block = CODE_BLOCK ->
  block = fence ++ slice_3_m3 block ++ fence
  /\ code_block_to_html_node block
     = OK (ParentNode (Some (lit "pre"))
             (Some [LeafNode (Some (strip_one_newline (slice_3_m3 block)))
                      (Some (lit "code")) None])
             None).
Proof.
  intros Hin Hc.
  apply code_block_one_newline_ok; [|exact Hc].
  exact (proj1 (Forall_forall _ _) (markdown_to_blocks_ok markdown) _ Hin).
Qed.

Lemma code_block_strips_one_newline_witness :
  code_block_to_html_node (fence ++ NL ++ lit "code _x_" ++ NL ++ fence)
  = OK (ParentNode (Some (lit "pre"))
          (Some [LeafNode (Some (lit "code _x_")) (Some (lit "code")) None])
          None).
Proof.
  refine (proj2 (@code_block_strips_one_newline
                   (lit "p" ++ NL ++ NL ++ fence ++ NL ++ lit "code _x_"
                    ++ NL ++ fence ++ NL)
                   (fence ++ NL ++ lit "code _x_" ++ NL ++ fence) _ eq_refl)).
  right. left. reflexivity.
Defined.

End SegmentedCodeBlocks.

(** ** Rendering of attributes and of parents *)

Section RendererExtras.

Lemma join_space_each (x : str) (l : list str) :
  lit " " ++ join (lit " ") (x :: l)
  = concat (map (fun y => lit " " ++ y) (x :: l)).
Proof.
  revert x; induction l as [|y l IH]; intros x.
  - cbn [join map concat]. rewrite app_nil_r. reflexivity.
  - change (join (lit " ") (x :: y :: l))
      with (x ++ lit " " ++ join (lit " ") (y :: l)).
    rewrite IH. cbn [map concat]. rewrite <- app_assoc. reflexivity.
Qed.

(** X1. The attribute string is the concatenation, in insertion order,
    of one rendering per attribute, each made of a single space, the key,
    [=] and the value between double quotes; without attributes it is
    empty. *)
Theorem props_to_html_each_attribute (props : option props_t) :
  props_to_html props
  = match props with
    | None => []
    | Some items => concat (map render_attribute items)
    end.
Proof.
  destruct props as [[|kv items]|]; try reflexivity.
  unfold props_to_html.
  set (f := fun kv : str * str =>
              fst kv ++ lit "=" ++ [dquote] ++ snd kv ++ [dquote]).
  cbn [map]. rewrite join_space_each. cbn [map concat].
  f_equal. rewrite map_map. reflexivity.
Qed.

Lemma render_children_acc
    (render_children : list HTMLNode -> str -> result str)
    (Hnil : forall acc, render_children [] acc = OK acc)
    (Hcons : forall c cs acc,
        render_children (c :: cs) acc
        = match to_html c with
          | OK h => render_children cs (acc ++ h)
          | Err e => Err e
          end)
    (cs : list HTMLNode) (acc : str) :
  render_children cs acc
  = do htmls <- map_result to_html cs; OK (acc ++ concat htmls).
Proof.
  revert acc; induction cs as [|c cs IH]; intros acc.
  - rewrite Hnil. cbn. rewrite app_nil_r. reflexivity.
  - rewrite Hcons. cbn [map_result].
    destruct (to_html c) as [h|e]; cbn [bind]; [|reflexivity].
    rewrite IH. destruct (map_result to_html cs); cbn [bind concat];
      [rewrite app_assoc|]; reflexivity.
Qed.

Lemma to_html_parent_eq (t : str) (children : list HTMLNode)
    (props : option props_t) :
  t <> [] ->
  to_html (ParentNode (Some t) (Some children) props)
  = do htmls <- map_result to_html children;
    OK (lit "<" ++ t ++ props_to_html props ++ lit ">" ++ concat htmls
        ++ lit "</" ++ t ++ lit ">").
Proof.
  intros Ht. destruct t as [|c t]; [contradiction|].
  cbn [to_html truthy negb].
  match goal with
  | |- match ?rc children ?open with _ => _ end = _ =>
      rewrite (@render_children_acc rc
                 (fun _ => eq_refl) (fun _ _ _ => eq_refl) children open)
  end.
  destruct (map_result to_html children); cbn [bind]; [|reflexivity].
  f_equal. repeat rewrite <- app_assoc. reflexivity.
Qed.

(** X2. A parent with a non-empty tag renders exactly when all its
    children do, to its opening tag, the renderings of the children in
    order, and its closing tag; otherwise it fails with the failure of
    the first child that does not render. *)
Theorem parent_to_html_children (t : str) (children : list HTMLNode)
    (props : option props_t) :
  t <> [] ->
  to_html (ParentNode (Some t) (Some children) props)
  = do htmls <- map_result to_html children;
    OK (lit "<" ++ t ++ props_to_html props ++ lit ">" ++ concat htmls
        ++ lit "</" ++ t ++ lit ">").
Proof. exact (@to_html_parent_eq t children props). Qed.

Lemma parent_to_html_children_witness :
  to_html (ParentNode (Some (lit "p"))
             (Some [LeafNode (Some (lit "a")) (Some (lit "b")) None;
                    LeafNode (Some (lit "c")) None None])
             (Some [(lit "id", lit "x")]))
  = OK (lit "<p id=" ++ [dquote] ++ lit "x" ++ [dquote]
        ++ lit "><b>a</b>c</p>").
Proof.
  rewrite parent_to_html_children by discriminate. reflexivity.
Defined.

End RendererExtras.

(** ** Conversion of spans, blocks and documents *)

Section MapResult.

Variables A B : Type.
Variable f : A -> result B.

Lemma map_result_ok (l : list A) (ys : list B) :
  map_result f l = OK ys <-> Forall2 (fun x y => f x = OK y) l ys.
Proof.
  revert ys; induction l as [|x l IH]; intros ys; cbn [map_result].
  - split; [intros H; injection H as <-; constructor|].
    intros H; inversion H; reflexivity.
  - destruct (f x) as [y|e] eqn:Ex; cbn [bind].
    + destruct (map_result f l) as [ys'|e] eqn:El; cbn [bind].
      * split.
        -- intros H; injection H as <-. constructor; [exact Ex|].
           apply IH; reflexivity.
        -- intros H; inversion H as [|? y' ? ys'' Hy Hys]; subst.
           apply IH in Hys. congruence.
      * split; [discriminate|].
        intros H; inversion H as [|? y' ? ys'' Hy Hys]; subst.
        apply IH in Hys. discriminate.
    + split; [discriminate|].
      intros H; inversion H; congruence.
Qed.

(** The failure of [map_result] is that of the first element that
    fails. *)
Lemma map_result_err (l : list A) (e : error) :
  map_result f l = Err e
  <-> exists pre x post,
        l = pre ++ x :: post
        /\ Forall (fun x' => exists y, f x' = OK y) pre
        /\ f x = Err e.
Proof.
  induction l as [|x l IH]; cbn [map_result].
  - split; [discriminate|]. intros (pre & x & post & H & _).
    destruct pre; discriminate.
  - destruct (f x) as [y|e'] eqn:Ex; cbn [bind].
    + destruct (map_result f l) as [ys|e'] eqn:El; cbn [bind].
      * split; [discriminate|].
        intros (pre & x' & post & H & Hpre & Hx).
        destruct pre as [|p pre]; cbn [app] in H; injection H as -> ->.
        -- congruence.
        -- inversion Hpre; subst.
           assert (Hc : @OK (list B) ys = Err e)
             by (apply IH; eauto 6).
           discriminate.
      * split.
        -- intros H; injection H as ->.
           destruct (proj1 IH eq_refl) as (pre & x' & post & -> & Hpre & Hx).
           exists (x :: pre), x', post. repeat split; eauto.
        -- intros (pre & x' & post & H & Hpre & Hx).
           destruct pre as [|p pre]; cbn [app] in H; injection H as -> ->.
           ++ congruence.
           ++ inversion Hpre; subst. f_equal.
              assert (Hc : Err e' = @Err (list B) e)
                by (apply IH; eauto 6).
              congruence.
    + split.
      * intros H; injection H as ->. exists [], x, l. auto.
      * intros (pre & x' & post & H & Hpre & Hx).
        destruct pre as [|p pre]; cbn [app] in H; injection H as -> ->.
        -- congruence.
        -- inversion Hpre as [|? ? [y Hy] _]; subst. congruence.
Qed.

End MapResult.

Section Conversion.

Lemma text_to_textnodes_target_ok (t : str) (nodes : list TextNode) :
  text_to_textnodes t = OK nodes -> Forall target_ok nodes.
Proof.
  unfold text_to_textnodes.
  set (spans0 := split_nodes_link (split_nodes_image [mkTextNode t TEXT None])).
  assert (H0 : Forall target_ok spans0).
  { apply split_nodes_loop_ok; [reflexivity| |constructor].
    apply split_nodes_loop_ok; [reflexivity| |constructor].
    constructor; [reflexivity|constructor]. }
  destruct (split_nodes_delimiter spans0 (lit "**") BOLD) as [s1|] eqn:E1;
    cbn [bind]; [|discriminate].
  destruct (split_nodes_delimiter s1 (lit "_") ITALIC) as [s2|] eqn:E2;
    cbn [bind]; [|discriminate].
  destruct (split_nodes_delimiter s2 (lit "`") CODE) as [s3|] eqn:E3;
    cbn [bind]; [|discriminate].
  intros H; injection H as <-.
  apply (@split_nodes_delimiter_loop_ok (lit "`") CODE eq_refl s2 [] s3);
    [|constructor|exact E3].
  apply (@split_nodes_delimiter_loop_ok (lit "_") ITALIC eq_refl s1 [] s2);
    [|constructor|exact E2].
  apply (@split_nodes_delimiter_loop_ok (lit "**") BOLD eq_refl spans0 [] s1);
    [exact H0|constructor|exact E1].
Qed.

Lemma text_to_textnodes_err_kind (t : str) (e : error) :
  text_to_textnodes t = Err e -> is_malformed_inline e.
Proof.
  unfold text_to_textnodes, is_malformed_inline. fold (extracted t).
  destruct (split_nodes_delimiter_total (lit "**") BOLD (extracted t))
    as [[s1 ->]|[s ->]]; cbn [bind];
    [|intros H; injection H as <-; eauto].
  destruct (split_nodes_delimiter_total (lit "_") ITALIC s1)
    as [[s2 ->]|[s ->]]; cbn [bind];
    [|intros H; injection H as <-; eauto].
  destruct (split_nodes_delimiter_total (lit "`") CODE s2)
    as [[s3 ->]|[s ->]]; cbn [bind];
    [discriminate|intros H; injection H as <-; eauto].
Qed.

Lemma text_node_to_html_node_ok (n : TextNode) :
  target_ok n ->
  exists v tag props, text_node_to_html_node n = OK (LeafNode (Some v) tag props).
Proof.
  destruct n as [tx ty u]. unfold target_ok, text_node_to_html_node.
  cbn [text_type url text].
  destruct ty; cbn [carries_target]; intros H;
    try (do 3 eexists; reflexivity);
    destruct H as [u' ->]; do 3 eexists; reflexivity.
Qed.

Lemma convert_text_nodes_eq (text_nodes : list TextNode)
    (children : list HTMLNode) :
  convert_text_nodes text_nodes children
  = do cs <- map_result text_node_to_html_node text_nodes;
    OK (children ++ cs).
Proof.
  revert children; induction text_nodes as [|n ns IH]; intros children;
    cbn [convert_text_nodes map_result bind].
  - rewrite app_nil_r. reflexivity.
  - destruct (text_node_to_html_node n) as [h|e]; cbn [bind]; [|reflexivity].
    rewrite IH.
    destruct (map_result text_node_to_html_node ns); cbn [bind];
      [rewrite <- app_assoc|]; reflexivity.
Qed.

Lemma spans_convert (nodes : list TextNode) :
  Forall target_ok nodes ->
  exists cs,
    map_result text_node_to_html_node nodes = OK cs
    /\ Forall (fun c => exists v tag props, c = LeafNode (Some v) tag props) cs.
Proof.
  induction nodes as [|n ns IH]; intros H.
  - exists []. split; [reflexivity|constructor].
  - inversion H as [|? ? Hn Hns]; subst.
    destruct (@text_node_to_html_node_ok n Hn) as (v & tag & props & Hc).
    destruct (IH Hns) as (cs & Hcs & Hleaf).
    exists (LeafNode (Some v) tag props :: cs). cbn [map_result].
    rewrite Hc, Hcs. split; [reflexivity|].
    constructor; [eauto|exact Hleaf].
Qed.

Lemma text_to_children_eq (t : str) :
  text_to_children t
  = do nodes <- text_to_textnodes t;
    map_result text_node_to_html_node nodes.
Proof.
  unfold text_to_children.
  destruct (text_to_textnodes t) as [nodes|e]; cbn [bind]; [|reflexivity].
  rewrite convert_text_nodes_eq.
  destruct (map_result text_node_to_html_node nodes); reflexivity.
Qed.

(** X3. Converting the spans of a text to leaves never fails by itself:
    [text_to_children] fails exactly when the tokenizer fails, with the
    same failure, and otherwise returns, span by span and in order, the
    leaf of each span; every one of them holds a value. *)
Theorem text_to_children_spans (t : str) :
  (forall e, text_to_children t = Err e <-> text_to_textnodes t = Err e)
  /\ (forall nodes, text_to_textnodes t = OK nodes ->
        exists cs,
          text_to_children t = OK cs
          /\ Forall2 (fun n c => text_node_to_html_node n = OK c) nodes cs
          /\ Forall (fun c => exists v tag props,
                               c = LeafNode (Some v) tag props) cs).
Proof.
  rewrite text_to_children_eq.
  destruct (text_to_textnodes t) as [nodes|e0] eqn:E; cbn [bind].
  - destruct (@spans_convert nodes (@text_to_textnodes_target_ok t nodes E))
      as (cs & Hcs & Hleaf).
    split.
    + intros e. rewrite Hcs. split; discriminate.
    + intros nodes' H; injection H as <-.
      exists cs. split; [exact Hcs|]. split; [|exact Hleaf].
      apply map_result_ok. exact Hcs.
  - split; [intros e; split; congruence|discriminate].
Qed.

Lemma text_to_children_spans_witness :
  exists cs,
    text_to_children (lit "a [b](c)") = OK cs
    /\ Forall2 (fun n c => text_node_to_html_node n = OK c)
         [mkTextNode (lit "a ") TEXT None;
          mkTextNode (lit "b") LINK (Some (lit "c"))] cs
    /\ Forall (fun c => exists v tag props,
                         c = LeafNode (Some v) tag props) cs.
Proof.
  exact (proj2 (text_to_children_spans (lit "a [b](c)")) _ eq_refl).
Defined.

Lemma renders_leaf (v : str) (tag : option str) (props : option props_t) :
  renders (LeafNode (Some v) tag props).
Proof. destruct tag; eexists; reflexivity. Qed.

Lemma renders_parent (t : str) (children : list HTMLNode)
    (props : option props_t) :
  t <> [] -> Forall renders children ->
  renders (ParentNode (Some t) (Some children) props).
Proof.
  intros Ht Hc. unfold renders. rewrite (to_html_parent_eq _ props Ht).
  assert (H : exists htmls, map_result to_html children = OK htmls).
  { induction Hc as [|c cs [h Hh] _ [hs Hhs]].
    - exists []; reflexivity.
    - exists (h :: hs). cbn [map_result]. rewrite Hh, Hhs. reflexivity. }
  destruct H as [htmls ->]. eexists; reflexivity.
Qed.

Lemma text_to_children_well (t : str) :
  match text_to_children t with
  | OK cs => Forall renders cs
  | Err e => is_malformed_inline e
  end.
Proof.
  rewrite text_to_children_eq.
  destruct (text_to_textnodes t) as [nodes|e] eqn:E; cbn [bind].
  - destruct (@spans_convert nodes (@text_to_textnodes_target_ok t nodes E))
      as (cs & -> & Hleaf).
    eapply Forall_impl; [|exact Hleaf].
    intros c (v & tag & props & ->). apply renders_leaf.
  - exact (text_to_textnodes_err_kind _ E).
Qed.

(** A container around the children of a text. *)
Lemma wrap_children_well (t tag : str) :
  tag <> [] ->
  converts_well (do children <- text_to_children t;
                 OK (ParentNode (Some tag) (Some children) None)).
Proof.
  intros Ht. pose proof (text_to_children_well t) as H.
  destruct (text_to_children t); cbn [bind converts_well]; [|exact H].
  apply renders_parent; assumption.
Qed.

Lemma map_result_well (A : Type) (g : A -> result HTMLNode) (l : list A) :
  (forall x, converts_well (g x)) ->
  match map_result g l with
  | OK items => Forall renders items
  | Err e => is_malformed_inline e
  end.
Proof.
  intros Hg. induction l as [|x l IH]; cbn [map_result]; [constructor|].
  pose proof (Hg x) as Hx.
  destruct (g x); cbn [bind converts_well] in *; [|exact Hx].
  destruct (map_result g l); cbn [bind]; [|exact IH].
  constructor; assumption.
Qed.

Lemma ul_items_eq (lines : list str) (list_items : list HTMLNode) :
  ul_items lines list_items
  = do items <- map_result ul_item (filter truthy lines);
    OK (list_items ++ items).
Proof.
  revert list_items; induction lines as [|line rest IH]; intros acc;
    cbn [ul_items filter map_result bind].
  - rewrite app_nil_r. reflexivity.
  - destruct (truthy line); cbn [negb]; [|apply IH].
    cbn [map_result]. unfold ul_item at 1, li.
    destruct (text_to_children (skipn 2 line)); cbn [bind]; [|reflexivity].
    rewrite IH.
    destruct (map_result ul_item (filter truthy rest)); cbn [bind];
      [rewrite <- app_assoc|]; reflexivity.
Qed.

Lemma ol_items_eq (lines : list str) (list_items : list HTMLNode) :
  ol_items lines list_items
  = do items <- map_result ol_item (filter ol_line lines);
    OK (list_items ++ items).
Proof.
  revert list_items; induction lines as [|line rest IH]; intros acc;
    cbn [ol_items filter map_result bind].
  - rewrite app_nil_r. reflexivity.
  - unfold ol_line at 1.
    destruct (truthy line); cbn [negb andb]; [|apply IH].
    destruct (find_char line " "%char) as [i|] eqn:Ef; [|apply IH].
    cbn [map_result]. unfold ol_item at 1, li. rewrite Ef.
    destruct (text_to_children (skipn (i + 1) line)); cbn [bind];
      [|reflexivity].
    rewrite IH.
    destruct (map_result ol_item (filter ol_line rest)); cbn [bind];
      [rewrite <- app_assoc|]; reflexivity.
Qed.

Lemma ul_item_well (line : str) : converts_well (ul_item line).
Proof. apply wrap_children_well. discriminate. Qed.

Lemma ol_item_well (line : str) : converts_well (ol_item line).
Proof.
  unfold ol_item. destruct (find_char line " "%char).
  - apply wrap_children_well. discriminate.
  - apply renders_parent; [discriminate|constructor].
Qed.

Lemma list_block_well (A : Type) (g : A -> result HTMLNode) (l : list A)
    (tag : str) :
  tag <> [] ->
  (forall x, converts_well (g x)) ->
  converts_well (do items <- map_result g l;
                 OK (ParentNode (Some tag) (Some ([] ++ items)) None)).
Proof.
  intros Ht Hg. pose proof (map_result_well g l Hg) as H.
  destruct (map_result g l); cbn [bind converts_well]; [|exact H].
  apply renders_parent; assumption.
Qed.

Lemma block_to_html_node_well (block : str) :
  converts_well (block_to_html_node block).
Proof.
  unfold block_to_html_node.
  destruct (block_to_block_type block) eqn:Ety.
  - apply wrap_children_well. discriminate.
  - unfold heading_block_to_html_node.
    apply wrap_children_well. discriminate.
  - destruct (code_block_classified _ Ety) as (_ & Hs & He).
    unfold code_block_to_html_node. rewrite Hs, He. cbn [negb orb].
    apply renders_parent; [discriminate|].
    constructor; [apply renders_leaf|constructor].
  - apply wrap_children_well. discriminate.
  - unfold unordered_list_block_to_html_node. rewrite ul_items_eq.
    pose proof (@list_block_well _ ul_item
                  (filter truthy (split block NL)) (lit "ul")) as H.
    destruct (map_result ul_item _); cbn [bind] in *;
      apply H; try discriminate; apply ul_item_well.
  - unfold ordered_list_block_to_html_node. rewrite ol_items_eq.
    pose proof (@list_block_well _ ol_item
                  (filter ol_line (split block NL)) (lit "ol")) as H.
    destruct (map_result ol_item _); cbn [bind] in *;
      apply H; try discriminate; apply ol_item_well.
Qed.

Lemma convert_blocks_eq (blocks : list str) (children_nodes : list HTMLNode) :
  convert_blocks blocks children_nodes
  = do cs <- map_result block_to_html_node blocks;
    OK (children_nodes ++ cs).
Proof.
  revert children_nodes; induction blocks as [|b bs IH]; intros acc;
    cbn [convert_blocks map_result bind].
  - rewrite app_nil_r. reflexivity.
  - destruct (block_to_html_node b); cbn [bind]; [|reflexivity].
    rewrite IH.
    destruct (map_result block_to_html_node bs); cbn [bind];
      [rewrite <- app_assoc|]; reflexivity.
Qed.

Lemma markdown_to_html_node_eq (markdown : str) :
  markdown_to_html_node markdown
  = do cs <- map_result block_to_html_node (markdown_to_blocks markdown);
    OK (ParentNode (Some (lit "div")) (Some cs) None).
Proof.
  unfold markdown_to_html_node. rewrite convert_blocks_eq.
  destruct (map_result block_to_html_node _); reflexivity.
Qed.

Lemma markdown_to_html_node_well (markdown : str) :
  converts_well (markdown_to_html_node markdown).
Proof.
  rewrite markdown_to_html_node_eq.
  pose proof (map_result_well block_to_html_node
                (markdown_to_blocks markdown) block_to_html_node_well) as H.
  destruct (map_result block_to_html_node _); cbn [bind converts_well];
    [|exact H].
  apply renders_parent; [discriminate|exact H].
Qed.

(** X4. The conversion of a document fails only on an unmatched inline
    delimiter: no other failure of the converters or of the span
    conversion can be reached from [markdown_to_html_node]. *)
Theorem markdown_to_html_node_only_malformed (markdown : str) (e : error) :
  markdown_to_html_node markdown = Err e ->
  exists delimiter t, e = MalformedInline delimiter t.
Proof.
  intros H. pose proof (markdown_to_html_node_well markdown) as Hw.
  rewrite H in Hw. exact Hw.
Qed.

Lemma markdown_to_html_node_only_malformed_witness :
  exists delimiter t,
    MalformedInline (lit "_") (lit "b_c") = MalformedInline delimiter t.
Proof.
  exact (@markdown_to_html_node_only_malformed
           (lit "# a" ++ NL ++ NL ++ lit "b_c") _ eq_refl).
Defined.

(** X5. The tree of a converted document always renders: [to_html]
    fails on none of its nodes. *)
Theorem markdown_to_html_node_renders (markdown : str) (node : HTMLNode) :
  markdown_to_html_node markdown = OK node ->
  exists html, to_html node = OK html.
Proof.
  intros H. pose proof (markdown_to_html_node_well markdown) as Hw.
  rewrite H in Hw. exact Hw.
Qed.

Lemma markdown_to_html_node_renders_witness :
  exists html,
    to_html (ParentNode (Some (lit "div"))
               (Some [ParentNode (Some (lit "h2"))
                        (Some [LeafNode (Some (lit "a")) None None]) None])
               None)
    = OK html.
Proof.
  exact (@markdown_to_html_node_renders (lit "## a") _ eq_refl).
Defined.

(** X6. The root of a converted document is a [div] with one child per
    block of the segmented document, in order, each the conversion of its
    block; the conversion fails with the failure of the first block that
    does not convert, and there is no partial result. *)
Theorem markdown_to_html_node_per_block (markdown : str) :
  (forall node,
     markdown_to_html_node markdown = OK node
     <-> exists cs,
           node = ParentNode (Some (lit "div")) (Some cs) None
           /\ Forall2 (fun b c => block_to_html_node b = OK c)
                (markdown_to_blocks markdown) cs)
  /\ (forall e,
        markdown_to_html_node markdown = Err e
        <-> exists pre b post,
              markdown_to_blocks markdown = pre ++ b :: post
              /\ Forall (fun b' => exists c, block_to_html_node b' = OK c) pre
              /\ block_to_html_node b = Err e).
Proof.
  rewrite markdown_to_html_node_eq. split.
  - intros node. split.
    + destruct (map_result block_to_html_node _) as [cs|] eqn:E;
        cbn [bind]; [|discriminate].
      intros H; injection H as <-. exists cs. split; [reflexivity|].
      apply map_result_ok. exact E.
    + intros (cs & -> & H). apply map_result_ok in H. rewrite H. reflexivity.
  - intros e. rewrite <- map_result_err.
    destruct (map_result block_to_html_node _); cbn [bind];
      split; congruence.
Qed.

Lemma markdown_to_html_node_per_block_witness :
  markdown_to_html_node (lit "a" ++ NL ++ NL ++ lit "b*")
  = OK (ParentNode (Some (lit "div"))
          (Some [ParentNode (Some (lit "p"))
                   (Some [LeafNode (Some (lit "a")) None None]) None;
                 ParentNode (Some (lit "p"))
                   (Some [LeafNode (Some (lit "b*")) None None]) None])
          None).
Proof.
  apply (proj1 (markdown_to_html_node_per_block
                  (lit "a" ++ NL ++ NL ++ lit "b*"))).
  eexists. split; [reflexivity|].
  repeat constructor.
Defined.

End Conversion.

(** ** Classification and conversion of the block kinds *)

Section BlockKinds.

Lemma takewhile_dropwhile (p : ascii -> bool) (s : str) :
  takewhile p s ++ dropwhile p s = s.
Proof.
  induction s as [|c s IH]; cbn [takewhile dropwhile]; [reflexivity|].
  destruct (p c); cbn [app]; [rewrite IH|]; reflexivity.
Qed.

Lemma skipn_takewhile (p : ascii -> bool) (s : str) :
  skipn (length (takewhile p s)) s = dropwhile p s.
Proof.
  induction s as [|c s IH]; cbn [takewhile dropwhile]; [reflexivity|].
  destruct (p c); cbn [length skipn]; [exact IH|reflexivity].
Qed.

Lemma takewhile_hashes (s : str) :
  takewhile is_hash s = repeat "#"%char (length (takewhile is_hash s)).
Proof.
  induction s as [|c s IH]; cbn [takewhile]; [reflexivity|].
  destruct (is_hash c) eqn:E; [|reflexivity].
  apply Ascii.eqb_eq in E. subst c. cbn [length repeat]. f_equal. exact IH.
Qed.

Lemma no_hash_no_heading (l : str) :
  (forall c l', l = c :: l' -> is_hash c = false) ->
  heading_match l = false.
Proof.
  intros H. destruct l as [|c l']; [reflexivity|].
  unfold heading_match. cbn [takewhile]. rewrite (H c l' eq_refl).
  reflexivity.
Qed.

Lemma first_line_head (block : str) (c : ascii) (r : str) :
  block = c :: r ->
  forall d l', first_line (split block NL) = d :: l' -> d = c.
Proof.
  intros -> d l' H. destruct (first_line_prefix (c :: r)) as [r' Hr'].
  rewrite H in Hr'. injection Hr' as -> _. reflexivity.
Qed.

Lemma split_lines_cons (block : str) :
  exists l ls, split block NL = l :: ls.
Proof.
  pose proof (@split_aux_not_nil NL 0 block) as H. unfold split.
  destruct (split_aux NL 0 block) as [|l ls]; [contradiction|eauto].
Qed.

(** A block whose first line starts with a character that is neither [#]
    nor a backtick is neither a heading nor a code block. *)
Lemma first_char_excludes (block : str) (c : ascii) (l' : str) :
  first_line (split block NL) = c :: l' ->
  is_hash c = false ->
  Ascii.eqb "`"%char c = false ->
  heading_match (first_line (split block NL)) = false
  /\ startswith block fence = false.
Proof.
  intros Hl Hh Hb. split.
  - apply no_hash_no_heading. intros d l'' Hd.
    rewrite Hl in Hd. injection Hd as <- _. exact Hh.
  - destruct (first_line_prefix block) as [r Hr]. rewrite Hl in Hr.
    rewrite Hr. cbn [app fence lit list_ascii_of_string startswith].
    rewrite Hb. reflexivity.
Qed.

Lemma code_excludes_heading (block : str) :
  startswith block fence = true ->
  heading_match (first_line (split block NL)) = false.
Proof.
  intros H. apply startswith_spec in H as [r Hr].
  apply no_hash_no_heading. intros c l' Hl.
  rewrite (first_line_head Hr Hl). reflexivity.
Qed.

Lemma quote_excludes (block : str) :
  all_lines_quote (split block NL) = true ->
  heading_match (first_line (split block NL)) = false
  /\ startswith block fence = false.
Proof.
  intros H. unfold all_lines_quote in H.
  destruct (split block NL) as [|l ls] eqn:E; [discriminate|].
  cbn [nonempty_lines forallb andb] in H.
  apply andb_true_iff in H as [H _].
  apply startswith_spec in H as [r Hr]. rewrite <- E.
  apply (@first_char_excludes block ">"%char r);
    [rewrite E; exact Hr|reflexivity|reflexivity].
Qed.

Lemma ul_excludes (block : str) :
  all_lines_ul (split block NL) = true ->
  heading_match (first_line (split block NL)) = false
  /\ startswith block fence = false
  /\ all_lines_quote (split block NL) = false.
Proof.
  intros H. unfold all_lines_ul in H. unfold all_lines_quote.
  destruct (split block NL) as [|l ls] eqn:E; [discriminate|].
  cbn [nonempty_lines forallb andb] in H |- *.
  apply andb_true_iff in H as [H _].
  apply orb_true_iff in H as [H|H];
    apply startswith_spec in H as [r Hr]; rewrite <- E.
  - destruct (@first_char_excludes block "*"%char (lit " " ++ r))
      as [H1 H2]; [rewrite E; exact Hr|reflexivity|reflexivity|].
    rewrite Hr. auto.
  - destruct (@first_char_excludes block "-"%char (lit " " ++ r))
      as [H1 H2]; [rewrite E; exact Hr|reflexivity|reflexivity|].
    rewrite Hr. auto.
Qed.

Lemma all_lines_quote_iff (block : str) :
  all_lines_quote (split block NL) = true
  <-> Forall (fun line => startswith line (lit ">") = true) (split block NL).
Proof.
  unfold all_lines_quote.
  destruct (split_lines_cons block) as (l & ls & ->).
  cbn [nonempty_lines andb]. rewrite forallb_forall, Forall_forall.
  reflexivity.
Qed.

Lemma all_lines_ul_iff (block : str) :
  all_lines_ul (split block NL) = true
  <-> Forall (fun line => startswith line (lit "* ") = true
                          \/ startswith line (lit "- ") = true)
        (split block NL).
Proof.
  unfold all_lines_ul.
  destruct (split_lines_cons block) as (l & ls & ->).
  cbn [nonempty_lines andb]. rewrite forallb_forall, Forall_forall.
  split; intros H x Hx; specialize (H x Hx).
  - apply orb_true_iff. exact H.
  - apply orb_true_iff in H. exact H.
Qed.

(** X7. The order of the decision list does not matter for the first
    four kinds: a block is a heading, a code block, a quote or an
    unordered list exactly when its own pattern matches, whatever the
    other rules say, and it is a paragraph exactly when no pattern of the
    five matches. *)
Theorem block_to_block_type_by_pattern (block : str) :
  (block_to_block_type block = HEADING
   <-> heading_match (first_line (split block NL)) = true)
  /\ (block_to_block_type block = CODE_BLOCK
      <-> 6 < length block
          /\ startswith block fence = true /\ endswith block fence = true)
  /\ (block_to_block_type block = QUOTE
      <-> Forall (fun line => startswith line (lit ">") = true)
            (split block NL))
  /\ (block_to_block_type block = UNORDERED_LIST
      <-> Forall (fun line => startswith line (lit "* ") = true
                              \/ startswith line (lit "- ") = true)
            (split block NL))
  /\ (block_to_block_type block = PARAGRAPH
      <-> heading_match (first_line (split block NL)) = false
          /\ (6 <? length block) && startswith block fence
             && endswith block fence = false
          /\ all_lines_quote (split block NL) = false
          /\ all_lines_ul (split block NL) = false
          /\ all_lines_ol (split block NL) = false).
Proof.
  rewrite <- all_lines_quote_iff, <- all_lines_ul_iff.
  pose proof (@code_excludes_heading block) as Hch.
  pose proof (@quote_excludes block) as Hq.
  pose proof (@ul_excludes block) as Hu.
  assert (Hcode : (6 <? length block) && startswith block fence
                  && endswith block fence = true
                  <-> 6 < length block /\ startswith block fence = true
                      /\ endswith block fence = true).
  { rewrite !andb_true_iff, Nat.ltb_lt. tauto. }
  rewrite <- Hcode. unfold block_to_block_type.
  destruct (heading_match (first_line (split block NL))) eqn:Eh;
    destruct (startswith block fence) eqn:Es;
    try (specialize (Hch eq_refl); discriminate Hch);
    destruct (all_lines_quote (split block NL)) eqn:Eq;
    try (destruct (Hq eq_refl); discriminate);
    destruct (all_lines_ul (split block NL)) eqn:Eu;
    try (destruct (Hu eq_refl) as (? & ? & ?); discriminate);
    destruct (6 <? length block); destruct (endswith block fence);
    destruct (all_lines_ol (split block NL));
    cbn [andb]; repeat split; intros; try discriminate; try reflexivity;
    repeat match goal with
           | H : _ /\ _ |- _ => destruct H
           end; try discriminate.
Qed.

Lemma block_to_block_type_by_pattern_witness :
  block_to_block_type (lit "> a" ++ NL ++ lit ">b") = QUOTE.
Proof.
  apply (proj1 (proj2 (proj2 (block_to_block_type_by_pattern
                                (lit "> a" ++ NL ++ lit ">b"))))).
  repeat constructor.
Defined.

Lemma heading_classified (block : str) :
  block_to_block_type block = HEADING ->
  heading_match (first_line (split block NL)) = true.
Proof.
  unfold block_to_block_type.
  destruct (heading_match _); [reflexivity|].
  destruct (_ && _ && _); [discriminate|].
  destruct (all_lines_quote _); [discriminate|].
  destruct (all_lines_ul _); [discriminate|].
  destruct (all_lines_ol _); discriminate.
Qed.

(** X8. For a block classified as a heading, the first line is between
    one and six [#], a space and a remainder; the conversion tokenizes
    the trimmed remainder and wraps it in the container [h1] to [h6] of
    that many [#]. The other lines of the block do not appear in the
    result. *)
Theorem heading_block_level (block : str) :
  block_to_block_type block = HEADING ->
  exists level rest,
    1 <= level <= 6
    /\ first_line (split block NL)
       = repeat "#"%char level ++ " "%char :: rest
    /\ heading_block_to_html_node block
       = do children <- text_to_children (strip rest);
         OK (ParentNode (Some (lit "h" ++ str_of_nat level))
               (Some children) None).
Proof.
  intros Hc. apply heading_classified in Hc.
  unfold heading_match in Hc. unfold heading_block_to_html_node.
  set (line := first_line (split block NL)) in *.
  set (level := length (takewhile is_hash line)) in *.
  apply andb_true_iff in Hc as [Hc Hsp].
  apply andb_true_iff in Hc as [H1 H6].
  apply Nat.leb_le in H1, H6.
  apply startswith_spec in Hsp as [rest Hrest]. cbn [app lit list_ascii_of_string] in Hrest.
  exists level, rest. split; [lia|].
  assert (Hline : line = repeat "#"%char level ++ " "%char :: rest).
  { rewrite <- (takewhile_dropwhile is_hash line) at 1.
    unfold level. rewrite <- takewhile_hashes.
    f_equal. rewrite <- skipn_takewhile. exact Hrest. }
  split; [exact Hline|].
  replace (skipn (level + 1) line) with rest; [reflexivity|].
  replace (level + 1) with (1 + level) by lia.
  rewrite <- skipn_skipn, Hrest. reflexivity.
Qed.

Lemma heading_block_level_witness :
  exists level rest,
    1 <= level <= 6
    /\ first_line (split (lit "## Title " ++ NL ++ lit "more") NL)
       = repeat "#"%char level ++ " "%char :: rest
    /\ heading_block_to_html_node (lit "## Title " ++ NL ++ lit "more")
       = do children <- text_to_children (strip rest);
         OK (ParentNode (Some (lit "h" ++ str_of_nat level))
               (Some children) None).
Proof.
  exact (@heading_block_level (lit "## Title " ++ NL ++ lit "more") eq_refl).
Defined.

End BlockKinds.

(** ** List blocks *)

Section ListBlocks.

Lemma ul_classified (block : str) :
  block_to_block_type block = UNORDERED_LIST ->
  all_lines_ul (split block NL) = true.
Proof.
  unfold block_to_block_type.
  destruct (heading_match _); [discriminate|].
  destruct (_ && _ && _); [discriminate|].
  destruct (all_lines_quote _); [discriminate|].
  destruct (all_lines_ul _); [reflexivity|].
  destruct (all_lines_ol _); discriminate.
Qed.

Lemma ol_classified (block : str) :
  block_to_block_type block = ORDERED_LIST ->
  ol_scan (split block NL) 1 = true.
Proof.
  unfold block_to_block_type, all_lines_ol.
  destruct (heading_match _); [discriminate|].
  destruct (_ && _ && _); [discriminate|].
  destruct (all_lines_quote _); [discriminate|].
  destruct (all_lines_ul _); [discriminate|].
  destruct (nonempty_lines _); cbn [andb]; [|discriminate].
  destruct (ol_scan _ 1); [reflexivity|discriminate].
Qed.

Lemma filter_truthy_marked (lines : list str) :
  forallb (fun line =>
             startswith line (lit "* ") || startswith line (lit "- "))
    lines = true ->
  filter truthy lines = lines.
Proof.
  induction lines as [|l ls IH]; cbn [forallb filter]; [reflexivity|].
  intros H. apply andb_true_iff in H as [Hl Hls].
  rewrite (IH Hls).
  destruct l as [|c l']; [discriminate Hl|reflexivity].
Qed.

Lemma map_result_length (A B : Type) (g : A -> result B) (l : list A)
    (ys : list B) :
  map_result g l = OK ys -> length ys = length l.
Proof.
  intros H. apply map_result_ok in H.
  induction H; cbn [length]; [reflexivity|congruence].
Qed.

Lemma ul_block_eq (block : str) :
  block_to_block_type block = UNORDERED_LIST ->
  unordered_list_block_to_html_node block
  = do items <- map_result ul_item (split block NL);
    OK (ParentNode (Some (lit "ul")) (Some items) None).
Proof.
  intros Hc. apply ul_classified in Hc. unfold all_lines_ul in Hc.
  apply andb_true_iff in Hc as [_ Hc].
  unfold unordered_list_block_to_html_node.
  rewrite ul_items_eq, (filter_truthy_marked _ Hc).
  destruct (map_result ul_item (split block NL)); reflexivity.
Qed.

(** X9. A block classified as an unordered list converts to a [ul]
    parent with one [li] per line, in order, each holding the
    tokenization of its line without the two-character marker; no line is
    skipped, so a successful conversion has as many items as the block
    has lines. *)
Theorem unordered_list_one_item_per_line (block : str) :
  block_to_block_type block = UNORDERED_LIST ->
  unordered_list_block_to_html_node block
  = (do items <- map_result ul_item (split block NL);
     OK (ParentNode (Some (lit "ul")) (Some items) None))
  /\ (forall tag items props,
        unordered_list_block_to_html_node block
        = OK (ParentNode tag (Some items) props) ->
        length items = length (split block NL)).
Proof.
  intros Hc. pose proof (@ul_block_eq block Hc) as E. split; [exact E|].
  intros tag items props H. rewrite E in H.
  destruct (map_result ul_item (split block NL)) as [ys|] eqn:Ey;
    cbn [bind] in H; [|discriminate].
  injection H as _ <-. exact (@map_result_length _ _ _ _ _ Ey).
Qed.

Lemma unordered_list_one_item_per_line_witness :
  unordered_list_block_to_html_node (lit "- a" ++ NL ++ lit "* **b**")
  = do items <- map_result ul_item [lit "- a"; lit "* **b**"];
    OK (ParentNode (Some (lit "ul")) (Some items) None).
Proof.
  exact (proj1 (@unordered_list_one_item_per_line
                  (lit "- a" ++ NL ++ lit "* **b**") eq_refl)).
Defined.

(** The decimal numeral of a number consists of digits. *)
Lemma string_of_uint_digits (d : Decimal.uint) :
  Forall (fun c => is_digit c = true) (lit (NilEmpty.string_of_uint d)).
Proof.
  induction d; cbn [NilEmpty.string_of_uint lit list_ascii_of_string];
    constructor; try reflexivity; assumption.
Qed.

Lemma str_of_nat_digits (n : nat) :
  Forall (fun c => is_digit c = true) (str_of_nat n).
Proof. apply string_of_uint_digits. Qed.

Lemma find_char_first (pre : str) (x : ascii) (r : str) :
  Forall (fun c => Ascii.eqb c x = false) pre ->
  find_char (pre ++ x :: r) x = Some (length pre).
Proof.
  induction pre as [|c pre IH]; intros H; cbn [app find_char length].
  - rewrite Ascii.eqb_refl. reflexivity.
  - inversion H as [|? ? Hc Hpre]; subst.
    rewrite Hc, (IH Hpre). reflexivity.
Qed.

(** In a line that starts with a numeral, a dot and a space, the first
    space is the one after the dot. *)
Lemma numbered_line_first_space (n : nat) (r : str) :
  find_char (str_of_nat n ++ lit ". " ++ r) " "%char
  = Some (length (str_of_nat n) + 1).
Proof.
  change (str_of_nat n ++ lit ". " ++ r)
    with (str_of_nat n ++ "."%char :: " "%char :: r).
  replace (str_of_nat n ++ "."%char :: " "%char :: r)
    with ((str_of_nat n ++ ["."%char]) ++ " "%char :: r)
    by (rewrite <- app_assoc; reflexivity).
  rewrite find_char_first.
  - rewrite length_app. reflexivity.
  - apply Forall_app. split; [|repeat constructor].
    eapply Forall_impl; [|apply str_of_nat_digits].
    intros c Hc. destruct (Ascii.eqb c " "%char) eqn:E; [|reflexivity].
    apply Ascii.eqb_eq in E. subst c. discriminate Hc.
Qed.

Lemma ol_items_numbered (lines : list str) :
  forall first list_items,
    ol_scan lines first = true ->
    ol_items lines list_items
    = do items <- map_result ol_item_numbered
                    (combine (seq first (length lines)) lines);
      OK (list_items ++ items).
Proof.
  induction lines as [|line rest IH]; intros first acc Hscan;
    cbn [ol_items length seq combine map_result bind].
  - rewrite app_nil_r. reflexivity.
  - cbn [ol_scan] in Hscan.
    destruct (startswith line (str_of_nat first ++ lit ". ")) eqn:Es;
      cbn [negb] in Hscan; [|discriminate].
    apply startswith_spec in Es as [r Hr].
    rewrite <- app_assoc in Hr.
    assert (Ht : truthy line = true).
    { rewrite Hr. destruct (str_of_nat first); reflexivity. }
    rewrite Ht. cbn [negb].
    rewrite Hr at 1. rewrite numbered_line_first_space.
    unfold ol_item_numbered at 1. cbn [fst snd].
    replace (length (str_of_nat first) + 1 + 1)
      with (length (str_of_nat first) + 2) by lia.
    destruct (text_to_children
                (skipn (length (str_of_nat first) + 2) line)) as [cs|];
      cbn [bind]; [|reflexivity].
    rewrite (IH (first + 1)
               (acc ++ [ParentNode (Some (lit "li")) (Some cs) None]) Hscan).
    replace (first + 1) with (S first) by lia.
    destruct (map_result ol_item_numbered
                (combine (seq (S first) (length rest)) rest));
      cbn [bind]; [rewrite <- app_assoc|]; reflexivity.
Qed.

(** X10. A block classified as an ordered list converts to an [ol]
    parent with one [li] per line, in order; the item of line number [n]
    holds the tokenization of what follows the numeral of [n], the dot
    and the space, because the first space of the line is the one after
    the dot. No line is skipped. *)
Theorem ordered_list_one_item_per_line (block : str) :
  block_to_block_type block = ORDERED_LIST ->
  ordered_list_block_to_html_node block
  = (do items <- map_result ol_item_numbered
                   (combine (seq 1 (length (split block NL)))
                      (split block NL));
     OK (ParentNode (Some (lit "ol")) (Some items) None))
  /\ (forall tag items props,
        ordered_list_block_to_html_node block
        = OK (ParentNode tag (Some items) props) ->
        length items = length (split block NL)).
Proof.
  intros Hc. apply ol_classified in Hc.
  assert (E : ordered_list_block_to_html_node block
              = do items <- map_result ol_item_numbered
                              (combine (seq 1 (length (split block NL)))
                                 (split block NL));
                OK (ParentNode (Some (lit "ol")) (Some items) None)).
  { unfold ordered_list_block_to_html_node.
    rewrite (@ol_items_numbered _ 1 [] Hc).
    destruct (map_result ol_item_numbered _); reflexivity. }
  split; [exact E|].
  intros tag items props H. rewrite E in H.
  destruct (map_result ol_item_numbered _) as [ys|] eqn:Ey;
    cbn [bind] in H; [|discriminate].
  injection H as _ <-. rewrite (@map_result_length _ _ _ _ _ Ey).
  rewrite length_combine, length_seq. apply Nat.min_id.
Qed.

Lemma ordered_list_one_item_per_line_witness :
  ordered_list_block_to_html_node (lit "1. a b" ++ NL ++ lit "2. _c_")
  = do items <- map_result ol_item_numbered
                  [(1, lit "1. a b"); (2, lit "2. _c_")];
    OK (ParentNode (Some (lit "ol")) (Some items) None).
Proof.
  exact (proj1 (@ordered_list_one_item_per_line
                  (lit "1. a b" ++ NL ++ lit "2. _c_") eq_refl)).
Defined.

End ListBlocks.

(** ** The passes of the tokenizer *)

Section TokenizerPasses.

Lemma skipn_prefix (p r : str) : skipn (length p) (p ++ r) = r.
Proof. induction p as [|c p IH]; [reflexivity|exact IH]. Qed.

Lemma split_once_spec (sep : str) (s before after : str) :
  split_once s sep = Some (before, after) -> s = before ++ sep ++ after.
Proof.
  revert before after; induction s as [|c s IH]; intros before after;
    cbn [split_once].
  - destruct (startswith [] sep) eqn:E; [|discriminate].
    apply startswith_spec in E as [r Hr].
    intros H; injection H as <- <-.
    destruct sep; [reflexivity|discriminate].
  - destruct (startswith (c :: s) sep) eqn:E.
    + apply startswith_spec in E as [r Hr].
      intros H; injection H as <- <-.
      rewrite Hr, skipn_prefix. reflexivity.
    + destruct (split_once s sep) as [[b a]|]; [|discriminate].
      intros H; injection H as <- <-.
      rewrite (IH b a eq_refl). reflexivity.
Qed.

Lemma str_eqb_eq (a b : str) : str_eqb a b = true -> a = b.
Proof.
  unfold str_eqb. destruct (list_eq_dec ascii_dec a b);
    [auto|discriminate].
Qed.

Lemma source_of_text (n : TextNode) :
  text_type n = TEXT -> source_of n = text n.
Proof. unfold source_of. intros ->. reflexivity. Qed.

Lemma sources_snoc (acc : list TextNode) (n : TextNode) :
  concat (map source_of (acc ++ [n]))
  = concat (map source_of acc) ++ source_of n.
Proof.
  rewrite map_app, concat_app. cbn [map concat].
  rewrite app_nil_r. reflexivity.
Qed.

Lemma append_text_source (acc : list TextNode) (t : str) :
  concat (map source_of (append_text acc t))
  = concat (map source_of acc) ++ t.
Proof.
  unfold append_text. destruct t as [|c t]; cbn [truthy].
  - rewrite app_nil_r. reflexivity.
  - apply sources_snoc.
Qed.

Lemma split_matches_source (markup : str -> str -> str) (kind : TextType)
    (matches : list (str * str)) :
  (forall alt u, source_of (mkTextNode alt kind (Some u)) = markup alt u) ->
  forall t acc,
    concat (map source_of (fst (split_matches markup kind matches t acc)))
    ++ snd (split_matches markup kind matches t acc)
    = concat (map source_of acc) ++ t.
Proof.
  intros Hk. induction matches as [|[alt u] rest IH]; intros t acc;
    cbn [split_matches]; [reflexivity|].
  unfold split1.
  destruct (split_once t (markup alt u)) as [[b a]|] eqn:E.
  - rewrite IH, sources_snoc, append_text_source, Hk.
    rewrite (split_once_spec _ _ E).
    repeat rewrite <- app_assoc. reflexivity.
  - destruct (str_eqb t (markup alt u)) eqn:Eq; cbn [fst snd];
      rewrite app_nil_r.
    + rewrite sources_snoc, Hk, (str_eqb_eq _ _ Eq). reflexivity.
    + apply append_text_source.
Qed.

Lemma split_nodes_loop_source (extract : str -> list (str * str))
    (markup : str -> str -> str) (kind : TextType) :
  (forall alt u, source_of (mkTextNode alt kind (Some u)) = markup alt u) ->
  forall old_nodes acc,
    concat (map source_of
              (split_nodes_loop extract markup kind old_nodes acc))
    = concat (map source_of acc) ++ concat (map source_of old_nodes).
Proof.
  intros Hk. induction old_nodes as [|n rest IH]; intros acc;
    cbn [split_nodes_loop map concat].
  - rewrite app_nil_r. reflexivity.
  - destruct (TextType_eqb (text_type n) TEXT) eqn:Et; cbn [negb].
    + apply TextType_eqb_eq in Et. rewrite (source_of_text _ Et).
      destruct (extract (text n)) as [|m ms] eqn:Ex.
      * rewrite IH. destruct (text n) as [|c t] eqn:Etx; cbn [truthy].
        -- reflexivity.
        -- rewrite sources_snoc, (source_of_text _ Et), Etx.
           rewrite <- app_assoc. reflexivity.
      * pose proof (@split_matches_source markup kind (m :: ms) Hk
                      (text n) acc) as Hm.
        destruct (split_matches markup kind (m :: ms) (text n) acc)
          as [new_nodes rest_text].
        cbn [fst snd] in Hm.
        rewrite IH, append_text_source, Hm, <- app_assoc. reflexivity.
    + rewrite IH, sources_snoc, <- app_assoc. reflexivity.
Qed.

(** X11. The image pass and the link pass lose no character: the
    markdown the spans stand for (the markup of an image or link span,
    the text of any other) concatenates to the same string before and
    after each pass, so the spans handed to the delimiter passes spell
    the input text. *)
Theorem image_and_link_passes_keep_source :
  (forall nodes,
     concat (map source_of (split_nodes_image nodes))
     = concat (map source_of nodes))
  /\ (forall nodes,
        concat (map source_of (split_nodes_link nodes))
        = concat (map source_of nodes))
  /\ (forall t, concat (map source_of (extracted t)) = t).
Proof.
  assert (Hi : forall nodes,
            concat (map source_of (split_nodes_image nodes))
            = concat (map source_of nodes)).
  { intros nodes. unfold split_nodes_image.
    rewrite split_nodes_loop_source; reflexivity. }
  assert (Hl : forall nodes,
            concat (map source_of (split_nodes_link nodes))
            = concat (map source_of nodes)).
  { intros nodes. unfold split_nodes_link.
    rewrite split_nodes_loop_source; reflexivity. }
  split; [exact Hi|]. split; [exact Hl|].
  intros t. unfold extracted. rewrite Hl, Hi. cbn. apply app_nil_r.
Qed.

(** *** Spans are not empty *)

Lemma append_text_nonempty (acc : list TextNode) (t : str) :
  Forall nonempty_span acc -> Forall nonempty_span (append_text acc t).
Proof.
  intros H. unfold append_text. destruct t as [|c t]; cbn [truthy];
    [exact H|].
  apply Forall_snoc; [exact H|]. intros _. discriminate.
Qed.

Lemma target_span_nonempty (alt : str) (kind : TextType) (u : option str) :
  carries_target kind = true -> nonempty_span (mkTextNode alt kind u).
Proof.
  intros Hk. unfold nonempty_span. cbn [text_type]. rewrite Hk. discriminate.
Qed.

Lemma split_matches_nonempty markup (kind : TextType)
    (matches : list (str * str)) :
  carries_target kind = true ->
  forall t acc,
    Forall nonempty_span acc ->
    Forall nonempty_span (fst (split_matches markup kind matches t acc)).
Proof.
  intros Hk. induction matches as [|[alt u] rest IH]; intros t acc Hacc;
    cbn [split_matches]; [exact Hacc|].
  destruct (split1 t (markup alt u)) as [|a [|b [|c l]]].
  1,2,4: destruct (str_eqb t (markup alt u)); cbn [fst];
    [apply Forall_snoc; [exact Hacc|apply target_span_nonempty; exact Hk]
    |apply append_text_nonempty; exact Hacc].
  apply IH. apply Forall_snoc;
    [apply append_text_nonempty; exact Hacc
    |apply target_span_nonempty; exact Hk].
Qed.

Lemma split_nodes_loop_nonempty extract markup (kind : TextType) :
  carries_target kind = true ->
  forall old_nodes acc,
    Forall (fun n => text_type n <> TEXT -> nonempty_span n) old_nodes ->
    Forall nonempty_span acc ->
    Forall nonempty_span
      (split_nodes_loop extract markup kind old_nodes acc).
Proof.
  intros Hk. induction old_nodes as [|n rest IH]; intros acc Hold Hacc;
    cbn [split_nodes_loop]; [exact Hacc|].
  inversion Hold as [|? ? Hn Hrest]; subst.
  destruct (TextType_eqb (text_type n) TEXT) eqn:Et; cbn [negb].
  - destruct (extract (text n)) as [|m ms] eqn:E.
    + apply IH; [exact Hrest|].
      destruct (text n) as [|c t] eqn:Etx; cbn [truthy]; [exact Hacc|].
      apply Forall_snoc; [exact Hacc|].
      intros _. rewrite Etx. discriminate.
    + pose proof (@split_matches_nonempty markup kind (m :: ms) Hk
                    (text n) acc Hacc) as Hm.
      destruct (split_matches markup kind (m :: ms) (text n) acc)
        as [new_nodes rest_text].
      apply IH; [exact Hrest|]. apply append_text_nonempty. exact Hm.
  - apply IH; [exact Hrest|]. apply Forall_snoc; [exact Hacc|].
    apply Hn. intros Ht. rewrite Ht in Et. discriminate.
Qed.

Lemma delimiter_parts_nonempty (new_type : TextType) (parts : list str) :
  forall i acc,
    Forall nonempty_span acc ->
    Forall nonempty_span (delimiter_parts i parts new_type acc).
Proof.
  induction parts as [|p parts IH]; intros i acc Hacc;
    cbn [delimiter_parts]; [exact Hacc|].
  destruct p as [|c p]; cbn [truthy negb]; [apply IH; exact Hacc|].
  destruct (Nat.even i); apply IH; apply Forall_snoc; try exact Hacc;
    intros _; discriminate.
Qed.

Lemma split_nodes_delimiter_loop_nonempty (delimiter : str)
    (new_type : TextType) :
  forall old_nodes acc nodes,
    Forall nonempty_span old_nodes ->
    Forall nonempty_span acc ->
    split_nodes_delimiter_loop old_nodes delimiter new_type acc = OK nodes ->
    Forall nonempty_span nodes.
Proof.
  induction old_nodes as [|n rest IH]; intros acc nodes Hold Hacc;
    cbn [split_nodes_delimiter_loop].
  - intros H; injection H as <-. exact Hacc.
  - inversion Hold as [|? ? Hn Hrest]; subst.
    destruct (negb (TextType_eqb (text_type n) TEXT)).
    + apply IH; [exact Hrest|]. apply Forall_snoc; assumption.
    + destruct (Nat.even (length (split (text n) delimiter))).
      * destruct (1 <? length (split (text n) delimiter)); [discriminate|].
        apply IH; [exact Hrest|]. apply Forall_snoc; assumption.
      * apply IH; [exact Hrest|]. apply delimiter_parts_nonempty.
        exact Hacc.
Qed.

(** X12. The tokenizer returns no empty span of kind text, bold, italic
    or code: the parts it keeps are never empty. (Only the anchor or alt
    text of a link or an image may be empty.) *)
Theorem text_to_textnodes_no_empty_span (t : str) (nodes : list TextNode) :
  text_to_textnodes t = OK nodes ->
  Forall (fun n => carries_target (text_type n) = false -> text n <> [])
    nodes.
Proof.
  unfold text_to_textnodes. fold (extracted t).
  assert (H0 : Forall nonempty_span (extracted t)).
  { unfold extracted, split_nodes_link, split_nodes_image.
    apply split_nodes_loop_nonempty; [reflexivity| |constructor].
    eapply Forall_impl;
      [|apply split_nodes_loop_nonempty; [reflexivity| |constructor]].
    - intros n Hn _. exact Hn.
    - constructor; [|constructor]. intros H. contradiction H. reflexivity. }
  destruct (split_nodes_delimiter (extracted t) (lit "**") BOLD)
    as [s1|] eqn:E1; cbn [bind]; [|discriminate].
  destruct (split_nodes_delimiter s1 (lit "_") ITALIC) as [s2|] eqn:E2;
    cbn [bind]; [|discriminate].
  destruct (split_nodes_delimiter s2 (lit "`") CODE) as [s3|] eqn:E3;
    cbn [bind]; [|discriminate].
  intros H; injection H as <-.
  apply (@split_nodes_delimiter_loop_nonempty (lit "`") CODE s2 [] s3);
    [|constructor|exact E3].
  apply (@split_nodes_delimiter_loop_nonempty (lit "_") ITALIC s1 [] s2);
    [|constructor|exact E2].
  apply (@split_nodes_delimiter_loop_nonempty (lit "**") BOLD
           (extracted t) [] s1); [exact H0|constructor|exact E1].
Qed.

Lemma text_to_textnodes_no_empty_span_witness :
  Forall (fun n => carries_target (text_type n) = false -> text n <> [])
    [mkTextNode (lit "a") BOLD None; mkTextNode (lit "b") TEXT None;
     mkTextNode [] LINK (Some (lit "u"))].
Proof.
  exact (@text_to_textnodes_no_empty_span (lit "**a**b[](u)") _ eq_refl).
Defined.

End TokenizerPasses.

(** ** Delimiter passes and pattern extraction *)

Section DelimitersAndPatterns.

Lemma delimiter_parts_settled (delimiter : str) (new_type : TextType)
    (parts : list str) :
  Forall (fun p => sep_free delimiter p = true) parts ->
  forall i acc,
    Forall (settled_span delimiter) acc ->
    Forall (settled_span delimiter)
      (delimiter_parts i parts new_type acc).
Proof.
  induction parts as [|p parts IH]; intros Hp i acc Hacc;
    cbn [delimiter_parts]; [exact Hacc|].
  inversion Hp as [|? ? Hfree Hparts]; subst.
  destruct p as [|c p]; cbn [truthy negb]; [apply IH; assumption|].
  destruct (Nat.even i); apply IH; try assumption;
    apply Forall_snoc; try exact Hacc;
    intros _; cbn [url text]; repeat split; try discriminate; exact Hfree.
Qed.

Lemma split_nodes_delimiter_loop_settled (delimiter : str)
    (new_type : TextType) :
  forall old_nodes acc nodes,
    Forall (settled_span delimiter) acc ->
    split_nodes_delimiter_loop old_nodes delimiter new_type acc = OK nodes ->
    Forall (settled_span delimiter) nodes.
Proof.
  induction old_nodes as [|n rest IH]; intros acc nodes Hacc;
    cbn [split_nodes_delimiter_loop].
  - intros H; injection H as <-. exact Hacc.
  - destruct (TextType_eqb (text_type n) TEXT) eqn:Et; cbn [negb].
    + destruct (Nat.even (length (split (text n) delimiter))) eqn:Ev.
      * rewrite (split_parts_even_gt1 _ _ Ev). discriminate.
      * apply IH. apply delimiter_parts_settled; [|exact Hacc].
        apply split_aux_sep_free.
    + apply IH. apply Forall_snoc; [exact Hacc|].
      intros Ht. rewrite Ht in Et. discriminate.
Qed.

Lemma split_nodes_delimiter_loop_fixed (delimiter : str)
    (new_type : TextType) :
  forall nodes acc,
    Forall (settled_span delimiter) nodes ->
    split_nodes_delimiter_loop nodes delimiter new_type acc
    = OK (acc ++ nodes).
Proof.
  induction nodes as [|n rest IH]; intros acc H;
    cbn [split_nodes_delimiter_loop].
  - rewrite app_nil_r. reflexivity.
  - inversion H as [|? ? Hn Hrest]; subst.
    destruct (TextType_eqb (text_type n) TEXT) eqn:Et; cbn [negb].
    + apply TextType_eqb_eq in Et.
      destruct (Hn Et) as (Hu & Hne & Hfree).
      unfold split. rewrite (split_aux_free _ _ Hfree).
      cbn [length Nat.even delimiter_parts].
      destruct n as [tx ty u]. cbn [text text_type url] in *. subst ty u.
      destruct tx as [|c tx]; [contradiction|]. cbn [truthy negb].
      rewrite (IH _ Hrest), <- app_assoc. reflexivity.
    + rewrite (IH _ Hrest), <- app_assoc. reflexivity.
Qed.

(** X13. A delimiter pass is idempotent: in the spans a successful pass
    returns, no text span contains the delimiter any more, and running
    the same pass on them returns them unchanged. *)
Theorem split_nodes_delimiter_idempotent (nodes : list TextNode)
    (delimiter : str) (kind : TextType) (nodes' : list TextNode) :
  split_nodes_delimiter nodes delimiter kind = OK nodes' ->
  Forall (fun n => text_type n = TEXT -> sep_free delimiter (text n) = true)
    nodes'
  /\ split_nodes_delimiter nodes' delimiter kind = OK nodes'.
Proof.
  intros H. unfold split_nodes_delimiter in *.
  pose proof (@split_nodes_delimiter_loop_settled delimiter kind nodes []
                nodes' (Forall_nil _) H) as Hs.
  split.
  - eapply Forall_impl; [|exact Hs]. intros n Hn Ht. apply (Hn Ht).
  - exact (@split_nodes_delimiter_loop_fixed delimiter kind nodes' [] Hs).
Qed.

Lemma split_nodes_delimiter_idempotent_witness :
  split_nodes_delimiter
    [mkTextNode (lit "a ") TEXT None; mkTextNode (lit "b") BOLD None;
     mkTextNode (lit " c") TEXT None] (lit "**") BOLD
  = OK [mkTextNode (lit "a ") TEXT None; mkTextNode (lit "b") BOLD None;
        mkTextNode (lit " c") TEXT None].
Proof.
  exact (proj2 (@split_nodes_delimiter_idempotent
                  [mkTextNode (lit "a **b** c") TEXT None] (lit "**") BOLD
                  _ eq_refl)).
Defined.

(** *** Text without markers *)

Lemma match_link_at_no_bracket (s : str) :
  (forall c r, s = c :: r -> Ascii.eqb c "["%char = false) ->
  match_link_at s = None.
Proof.
  intros H. unfold match_link_at, match_group.
  destruct s as [|c r]; [reflexivity|].
  rewrite (H c r eq_refl). reflexivity.
Qed.

Lemma findall_images_no_bracket (s : str) :
  Forall (fun c => Ascii.eqb c "["%char = false) s ->
  forall skip, findall_images skip s = [].
Proof.
  induction s as [|c s IH]; intros H skip; [reflexivity|].
  inversion H as [|? ? Hc Hs]; subst.
  cbn [findall_images]. destruct skip; [|apply IH; exact Hs].
  replace (match_image_at (c :: s)) with (@None (str * str * str)).
  - apply IH; exact Hs.
  - unfold match_image_at. destruct (Ascii.eqb c "!"%char); [|reflexivity].
    symmetry. apply match_link_at_no_bracket.
    intros d r ->. inversion Hs; assumption.
Qed.

Lemma findall_links_no_bracket (s : str) :
  Forall (fun c => Ascii.eqb c "["%char = false) s ->
  forall prev skip, findall_links prev skip s = [].
Proof.
  induction s as [|c s IH]; intros H prev skip; [reflexivity|].
  inversion H as [|? ? Hc Hs]; subst.
  cbn [findall_links]. destruct skip; [|apply IH; exact Hs].
  replace (match_link_at (c :: s)) with (@None (str * str * str)).
  - destruct prev as [p|]; [destruct (Ascii.eqb p "!"%char)|];
      apply IH; exact Hs.
  - symmetry. apply match_link_at_no_bracket.
    intros d r Heq. injection Heq as <- _. exact Hc.
Qed.

Lemma sep_free_first_char (x : ascii) (d s : str) :
  Forall (fun c => Ascii.eqb x c = false) s ->
  sep_free (x :: d) s = true.
Proof.
  induction s as [|c s IH]; intros H; [reflexivity|].
  inversion H as [|? ? Hc Hs]; subst.
  cbn [sep_free startswith]. rewrite Hc, (IH Hs). reflexivity.
Qed.

Lemma split_nodes_delimiter_plain (x : ascii) (d t : str)
    (kind : TextType) :
  t <> [] ->
  Forall (fun c => Ascii.eqb x c = false) t ->
  split_nodes_delimiter [mkTextNode t TEXT None] (x :: d) kind
  = OK [mkTextNode t TEXT None].
Proof.
  intros Hne H. unfold split_nodes_delimiter.
  rewrite split_nodes_delimiter_loop_fixed; [reflexivity|].
  constructor; [|constructor]. intros _. cbn [url text].
  repeat split; [exact Hne|]. apply sep_free_first_char. exact H.
Qed.

(** X14. A non-empty text that contains none of the characters [[], [*],
    [_] and the backtick is returned as a single text span holding the
    whole text. *)
Theorem text_to_textnodes_plain (t : str) :
  t <> [] ->
  Forall (fun c => ~ In c (lit "[*_`")) t ->
  text_to_textnodes t = OK [mkTextNode t TEXT None].
Proof.
  intros Hne H.
  assert (Hno : forall x, In x (lit "[*_`") ->
                  Forall (fun c => Ascii.eqb x c = false) t).
  { intros x Hx. eapply Forall_impl; [|exact H].
    intros c Hc. destruct (Ascii.eqb x c) eqn:E; [|reflexivity].
    apply Ascii.eqb_eq in E. subst c. contradiction. }
  assert (Hb : Forall (fun c => Ascii.eqb c "["%char = false) t).
  { eapply Forall_impl; [|apply (Hno "["%char); cbn; auto].
    intros c Hc. rewrite Ascii.eqb_sym. exact Hc. }
  unfold text_to_textnodes.
  assert (Hi : split_nodes_image [mkTextNode t TEXT None]
               = [mkTextNode t TEXT None]).
  { unfold split_nodes_image. cbn [split_nodes_loop TextType_eqb text_type negb text].
    unfold extract_markdown_images.
    rewrite (findall_images_no_bracket Hb).
    destruct t; [contradiction|reflexivity]. }
  assert (Hl : split_nodes_link [mkTextNode t TEXT None]
               = [mkTextNode t TEXT None]).
  { unfold split_nodes_link. cbn [split_nodes_loop TextType_eqb text_type negb text].
    unfold extract_markdown_links.
    rewrite (findall_links_no_bracket Hb).
    destruct t; [contradiction|reflexivity]. }
  rewrite Hi, Hl.
  change (lit "**") with ("*"%char :: lit "*").
  change (lit "_") with ("_"%char :: []).
  change (lit "`") with ("`"%char :: []).
  rewrite split_nodes_delimiter_plain;
    [|exact Hne|apply Hno; cbn; auto]. cbn [bind].
  rewrite split_nodes_delimiter_plain;
    [|exact Hne|apply Hno; cbn; auto]. cbn [bind].
  rewrite split_nodes_delimiter_plain;
    [|exact Hne|apply Hno; cbn; auto]. reflexivity.
Qed.

Lemma text_to_textnodes_plain_witness :
  text_to_textnodes (lit "5 > 3 !(ok)")
  = OK [mkTextNode (lit "5 > 3 !(ok)") TEXT None].
Proof.
  apply text_to_textnodes_plain; [discriminate|].
  repeat constructor; cbn; intros H;
    repeat (destruct H as [H|H]; [discriminate H|]); exact H.
Defined.

(** *** What the patterns extract *)

Lemma takewhile_Forall (p : ascii -> bool) (s : str) :
  Forall (fun c => p c = true) (takewhile p s).
Proof.
  induction s as [|c s IH]; cbn [takewhile]; [constructor|].
  destruct (p c) eqn:E; constructor; assumption.
Qed.

Lemma match_group_spec (open close : ascii) (s group rest : str) :
  match_group open close s = Some (group, rest) ->
  s = open :: group ++ close :: rest
  /\ Forall (outside open close) group.
Proof.
  unfold match_group. destruct s as [|c s1]; [discriminate|].
  destruct (Ascii.eqb c open) eqn:Ec; [|discriminate].
  apply Ascii.eqb_eq in Ec. subst c.
  set (inside := fun x => negb (Ascii.eqb x open) && negb (Ascii.eqb x close)).
  destruct (dropwhile inside s1) as [|d s2] eqn:Ed; [discriminate|].
  destruct (Ascii.eqb d close) eqn:Edc; [|discriminate].
  apply Ascii.eqb_eq in Edc. subst d.
  intros H; injection H as <- <-. split.
  - rewrite <- (takewhile_dropwhile inside s1) at 1. rewrite Ed. reflexivity.
  - eapply Forall_impl; [|apply takewhile_Forall].
    intros c Hc. unfold inside in Hc.
    apply andb_true_iff in Hc as [H1 H2].
    apply negb_true_iff in H1, H2. unfold outside.
    split; intros ->; rewrite Ascii.eqb_refl in *; discriminate.
Qed.

Lemma match_link_at_spec (s anchor target rest : str) :
  match_link_at s = Some (anchor, target, rest) ->
  s = markdown_link anchor target ++ rest
  /\ Forall (outside "["%char "]"%char) anchor
  /\ Forall (outside "("%char ")"%char) target.
Proof.
  unfold match_link_at.
  destruct (match_group "["%char "]"%char s) as [[a s1]|] eqn:E1;
    [|discriminate].
  destruct (match_group "("%char ")"%char s1) as [[u r]|] eqn:E2;
    [|discriminate].
  intros H; injection H as <- <- <-.
  destruct (match_group_spec _ _ _ E1) as [-> Ha].
  destruct (match_group_spec _ _ _ E2) as [-> Hu].
  repeat split; try assumption.
  unfold markdown_link. repeat rewrite <- app_assoc. reflexivity.
Qed.

Lemma match_image_at_spec (s alt target rest : str) :
  match_image_at s = Some (alt, target, rest) ->
  s = markdown_image alt target ++ rest
  /\ Forall (outside "["%char "]"%char) alt
  /\ Forall (outside "("%char ")"%char) target.
Proof.
  unfold match_image_at. destruct s as [|c s1]; [discriminate|].
  destruct (Ascii.eqb c "!"%char) eqn:Ec; [|discriminate].
  apply Ascii.eqb_eq in Ec. subst c. intros H.
  destruct (match_link_at_spec _ H) as (-> & Ha & Hu).
  repeat split; assumption.
Qed.

Lemma findall_images_occur (s : str) :
  forall skip alt target,
    In (alt, target) (findall_images skip s) ->
    (exists pre post, s = pre ++ markdown_image alt target ++ post)
    /\ Forall (outside "["%char "]"%char) alt
    /\ Forall (outside "("%char ")"%char) target.
Proof.
  induction s as [|c s IH]; intros skip alt target; cbn [findall_images];
    [intros []|].
  assert (Htail : forall k,
            In (alt, target) (findall_images k s) ->
            (exists pre post, c :: s = pre ++ markdown_image alt target ++ post)
            /\ Forall (outside "["%char "]"%char) alt
            /\ Forall (outside "("%char ")"%char) target).
  { intros k Hin. destruct (IH _ _ _ Hin) as ((pre & post & ->) & Ha & Hu).
    split; [|auto]. exists (c :: pre), post. reflexivity. }
  destruct skip; [|apply Htail].
  destruct (match_image_at (c :: s)) as [[[a u] rest]|] eqn:E;
    [|apply Htail].
  intros [Heq|Hin]; [|exact (Htail _ Hin)].
  injection Heq as -> ->.
  destruct (match_image_at_spec _ E) as (Hs & Ha & Hu).
  split; [|auto]. exists [], rest. exact Hs.
Qed.

Lemma findall_links_occur (s : str) :
  forall prev skip anchor target,
    In (anchor, target) (findall_links prev skip s) ->
    (exists pre post, s = pre ++ markdown_link anchor target ++ post)
    /\ Forall (outside "["%char "]"%char) anchor
    /\ Forall (outside "("%char ")"%char) target.
Proof.
  induction s as [|c s IH]; intros prev skip anchor target;
    cbn [findall_links]; [intros []|].
  assert (Htail : forall p k,
            In (anchor, target) (findall_links p k s) ->
            (exists pre post,
               c :: s = pre ++ markdown_link anchor target ++ post)
            /\ Forall (outside "["%char "]"%char) anchor
            /\ Forall (outside "("%char ")"%char) target).
  { intros p k Hin.
    destruct (IH _ _ _ _ Hin) as ((pre & post & ->) & Ha & Hu).
    split; [|auto]. exists (c :: pre), post. reflexivity. }
  destruct skip; [|apply Htail].
  destruct (if match prev with
               | Some p => Ascii.eqb p "!"%char
               | None => false
               end
            then None else match_link_at (c :: s))
    as [[[a u] rest]|] eqn:E; [|apply Htail].
  intros [Heq|Hin]; [|exact (Htail _ _ Hin)].
  injection Heq as -> ->.
  assert (E' : match_link_at (c :: s) = Some (anchor, target, rest)).
  { destruct prev as [p|]; [destruct (Ascii.eqb p "!"%char)|];
      [discriminate E|exact E|exact E]. }
  destruct (match_link_at_spec _ E') as (Hs & Ha & Hu).
  split; [|auto]. exists [], rest. exact Hs.
Qed.

(** X15. Every pair that [extract_markdown_images] returns occurs
    literally in the text as [![alt](target)], with no square bracket in
    the alt text and no parenthesis in the target; likewise every pair
    of [extract_markdown_links] occurs as [[anchor](target)]. *)
Theorem extracted_patterns_occur (t : str) :
  (forall alt target,
     In (alt, target) (extract_markdown_images t) ->
     (exists pre post, t = pre ++ markdown_image alt target ++ post)
     /\ Forall (outside "["%char "]"%char) alt
     /\ Forall (outside "("%char ")"%char) target)
  /\ (forall anchor target,
        In (anchor, target) (extract_markdown_links t) ->
        (exists pre post, t = pre ++ markdown_link anchor target ++ post)
        /\ Forall (outside "["%char "]"%char) anchor
        /\ Forall (outside "("%char ")"%char) target).
Proof.
  split.
  - intros alt target. apply findall_images_occur.
  - intros anchor target. apply findall_links_occur.
Qed.

Lemma extracted_patterns_occur_witness :
  (exists pre post,
     lit "x ![a](b) y" = pre ++ markdown_image (lit "a") (lit "b") ++ post)
  /\ Forall (outside "["%char "]"%char) (lit "a")
  /\ Forall (outside "("%char ")"%char) (lit "b").
Proof.
  apply (proj1 (extracted_patterns_occur (lit "x ![a](b) y"))).
  left. reflexivity.
Defined.

End DelimitersAndPatterns.

(** ** What segmentation and title extraction keep *)

Section SegmenterExtras.

Lemma join_cons_head (sep : str) (c : ascii) (parts : list str) :
  parts <> [] -> join sep (cons_head c parts) = c :: join sep parts.
Proof.
  destruct parts as [|h t]; [contradiction|]. intros _.
  cbn [cons_head]. destruct t; reflexivity.
Qed.

Lemma join_nil_cons (sep : str) (parts : list str) :
  parts <> [] -> join sep ([] :: parts) = sep ++ join sep parts.
Proof. destruct parts; [contradiction|reflexivity]. Qed.

(** Joining the parts of a split gives the string back. *)
Lemma join_split_aux (sep : str) :
  sep <> [] ->
  forall s k, k <= length s ->
    join sep (split_aux sep k s) = skipn k s.
Proof.
  intros Hsep. induction s as [|c s IH]; intros k Hk; cbn [split_aux].
  - cbn [length] in Hk. replace k with 0 by lia. reflexivity.
  - cbn [length] in Hk. destruct k as [|k]; [|cbn [skipn]; apply IH; lia].
    cbn [skipn].
    destruct (startswith (c :: s) sep) eqn:E.
    + apply startswith_spec in E as [r Hr].
      destruct sep as [|a sep']; [contradiction|].
      cbn [app] in Hr. injection Hr as -> ->.
      rewrite join_nil_cons by apply split_aux_not_nil.
      replace (length (a :: sep') - 1) with (length sep')
        by (cbn [length]; lia).
      rewrite IH by (rewrite length_app; lia).
      rewrite skipn_prefix. reflexivity.
    + rewrite join_cons_head by apply split_aux_not_nil.
      rewrite (IH 0) by lia. reflexivity.
Qed.

Lemma join_split (s sep : str) : sep <> [] -> join sep (split s sep) = s.
Proof. intros H. exact (join_split_aux H s (Nat.le_0_l _)). Qed.

Lemma nonspace_app (a b : str) :
  nonspace (a ++ b) = nonspace a ++ nonspace b.
Proof. apply filter_app. Qed.

Lemma nonspace_blank (s : str) :
  forallb is_space s = true -> nonspace s = [].
Proof.
  induction s as [|c s IH]; cbn [forallb nonspace filter]; [reflexivity|].
  intros H. apply andb_true_iff in H as [Hc Hs].
  rewrite Hc. cbn [negb]. exact (IH Hs).
Qed.

Lemma nonspace_strip (s : str) : nonspace (strip s) = nonspace s.
Proof.
  destruct (strip_with_spec is_space s) as (lead & trail & Hs & Hl & Ht & _).
  change (strip_with is_space s) with (strip s) in Hs.
  rewrite Hs at 2. rewrite !nonspace_app.
  rewrite (nonspace_blank _ Hl), (nonspace_blank _ Ht), app_nil_r.
  reflexivity.
Qed.

Lemma nonspace_filter_blocks (raw acc : list str) :
  nonspace (concat (filter_blocks raw acc))
  = nonspace (concat acc) ++ nonspace (concat raw).
Proof.
  revert acc; induction raw as [|p raw IH]; intros acc;
    cbn [filter_blocks concat].
  - rewrite app_nil_r. reflexivity.
  - rewrite nonspace_app.
    destruct p as [|c p]; cbn [truthy negb]; [apply IH|].
    rewrite <- (nonspace_strip (c :: p)).
    destruct (strip (c :: p)) as [|d q] eqn:E; cbn [truthy].
    + rewrite IH. reflexivity.
    + rewrite IH, concat_app, nonspace_app. cbn [concat].
      rewrite app_nil_r, <- app_assoc. reflexivity.
Qed.

Lemma nonspace_join (parts : list str) :
  nonspace (join NLNL parts) = nonspace (concat parts).
Proof.
  induction parts as [|p rest IH]; [reflexivity|].
  destruct rest as [|q rest'].
  - cbn [join concat]. rewrite app_nil_r. reflexivity.
  - change (join NLNL (p :: q :: rest'))
      with (p ++ NLNL ++ join NLNL (q :: rest')).
    cbn [concat] in *. rewrite !nonspace_app, IH, nonspace_app.
    reflexivity.
Qed.

(** X16. Segmentation loses nothing but whitespace, and changes no
    order: the characters of the blocks, taken in order, are the
    characters of the document without the whitespace removed between
    and around the blocks; with all whitespace deleted on both sides the
    two strings are equal. *)
Theorem markdown_to_blocks_keeps_text (markdown : str) :
  nonspace (concat (markdown_to_blocks markdown)) = nonspace markdown.
Proof.
  unfold markdown_to_blocks. rewrite nonspace_filter_blocks.
  cbn [concat nonspace filter app].
  change (NL ++ NL) with NLNL. rewrite <- nonspace_join.
  rewrite join_split by discriminate. reflexivity.
Qed.

(** X17. A document without blank-line separator is a single block, its
    trimmed text, or no block at all when it is whitespace only. *)
Theorem markdown_to_blocks_single (markdown : str) :
  sep_free (NL ++ NL) markdown = true ->
  markdown_to_blocks markdown
  = if truthy (strip markdown) then [strip markdown] else [].
Proof.
  intros H. unfold markdown_to_blocks, split.
  rewrite (split_aux_free _ _ H). cbn [filter_blocks].
  destruct markdown as [|c s]; [reflexivity|]. cbn [truthy negb].
  destruct (truthy (strip (c :: s))); reflexivity.
Qed.

Lemma markdown_to_blocks_single_witness :
  markdown_to_blocks (lit " # a" ++ NL ++ lit "b " ++ NL)
  = [lit "# a" ++ NL ++ lit "b"].
Proof.
  exact (@markdown_to_blocks_single (lit " # a" ++ NL ++ lit "b " ++ NL)
           eq_refl).
Defined.

Lemma strip_idempotent (s : str) : strip (strip s) = strip s.
Proof.
  destruct (strip_with_spec is_space s) as (_ & _ & _ & _ & _ & Hhd & Hlast).
  exact (@strip_with_fixed is_space (strip s) Hhd Hlast).
Qed.

Lemma In_strip (c : ascii) (s : str) : In c (strip s) -> In c s.
Proof.
  destruct (strip_with_spec is_space s) as (lead & trail & Hs & _).
  change (strip_with is_space s) with (strip s) in Hs.
  intros H. rewrite Hs. apply in_or_app. right.
  apply in_or_app. left. exact H.
Qed.

Lemma In_skipn_str (c : ascii) (k : nat) (s : str) :
  In c (skipn k s) -> In c s.
Proof.
  intros H. rewrite <- (firstn_skipn k s). apply in_or_app. right. exact H.
Qed.

Lemma sep_free_nl_no_newline (s : str) :
  sep_free NL s = true -> ~ In nl s.
Proof.
  induction s as [|c s IH]; cbn [sep_free]; [intros _ []|].
  intros H. apply andb_true_iff in H as [Hc Hs].
  unfold NL in Hc. cbn [startswith] in Hc.
  rewrite startswith_nil, andb_true_r in Hc.
  apply negb_true_iff in Hc.
  intros [Heq|Hin]; [|exact (IH Hs Hin)].
  subst c. rewrite Ascii.eqb_refl in Hc. discriminate.
Qed.

(** X18. An extracted title is a single trimmed line: it contains no
    newline and has no whitespace at either end. *)
Theorem extract_title_trimmed_line (markdown title : str) :
  extract_title markdown = OK title ->
  strip title = title /\ ~ In nl title.
Proof.
  unfold extract_title. intros H.
  destruct (title_scan_found _ H) as (pre & line & post & Hl & _ & _ & ->).
  unfold title_of. split; [apply strip_idempotent|].
  intros Hin. apply In_strip, In_skipn_str, In_strip in Hin.
  pose proof (split_aux_sep_free NL 0 markdown) as Hfree.
  fold (split markdown NL) in Hfree. rewrite Hl in Hfree.
  apply Forall_app in Hfree as [_ Hfree].
  inversion Hfree as [|? ? Hline _]; subst.
  exact (sep_free_nl_no_newline _ Hline Hin).
Qed.

Lemma extract_title_trimmed_line_witness :
  strip (lit "My Title") = lit "My Title" /\ ~ In nl (lit "My Title").
Proof.
  exact (@extract_title_trimmed_line
           (lit "intro" ++ NL ++ lit "  #  My Title  " ++ NL ++ lit "# b")
           (lit "My Title") eq_refl).
Defined.

End SegmenterExtras.

(** ** Rendering of spans and of whole documents *)

Section Rendering.

(** X19. The rendering of a document is [<div>], the renderings of the
    converted blocks in order, and [</div>]; it fails when a block does
    not convert, and only then. *)
Theorem render_concatenates_blocks (markdown : str) :
  render markdown
  = (do nodes <- map_result block_to_html_node (markdown_to_blocks markdown);
     do htmls <- map_result to_html nodes;
     OK (lit "<div>" ++ concat htmls ++ lit "</div>"))
  /\ (forall e, render markdown = Err e
                <-> markdown_to_html_node markdown = Err e).
Proof.
  assert (E : render markdown
              = do nodes <- map_result block_to_html_node
                              (markdown_to_blocks markdown);
                do htmls <- map_result to_html nodes;
                OK (lit "<div>" ++ concat htmls ++ lit "</div>")).
  { unfold render. rewrite markdown_to_html_node_eq.
    destruct (map_result block_to_html_node _) as [nodes|]; cbn [bind];
      [|reflexivity].
    rewrite to_html_parent_eq by discriminate.
    destruct (map_result to_html nodes); reflexivity. }
  split; [exact E|].
  intros e. unfold render.
  pose proof (markdown_to_html_node_well markdown) as Hw.
  destruct (markdown_to_html_node markdown) as [node|e']; cbn [bind].
  - destruct Hw as [html ->]. split; discriminate.
  - split; congruence.
Qed.

(** X20. Each kind of span, converted to a leaf and rendered, gives:
    the text itself for a text span; the text between [<b>], [<i>] or
    [<code>] tags for bold, italic and code; [<a href="target">text</a>]
    for a link; and, for an image, an [img] element with the target as
    [src], the text as [alt] and no content. Nothing is escaped. *)
Theorem span_rendering (n : TextNode) :
  target_ok n ->
  (do leaf <- text_node_to_html_node n; to_html leaf)
  = OK (match text_type n, url n with
        | TEXT, _ => text n
        | BOLD, _ => lit "<b>" ++ text n ++ lit "</b>"
        | ITALIC, _ => lit "<i>" ++ text n ++ lit "</i>"
        | CODE, _ => lit "<code>" ++ text n ++ lit "</code>"
        | LINK, Some u =>
            lit "<a href=" ++ [dquote] ++ u ++ [dquote] ++ lit ">"
            ++ text n ++ lit "</a>"
        | IMAGE, Some u =>
            lit "<img src=" ++ [dquote] ++ u ++ [dquote]
            ++ lit " alt=" ++ [dquote] ++ text n ++ [dquote]
            ++ lit "></img>"
        | _, None => []
        end).
Proof.
  destruct n as [tx ty u]. unfold target_ok, text_node_to_html_node.
  cbn [text_type url text].
  destruct ty; cbn [carries_target]; intros H;
    try (destruct u; reflexivity);
    destruct H as [u' ->]; cbn [bind to_html props_to_html map join fst snd];
    f_equal; repeat rewrite <- app_assoc;
    cbn [lit list_ascii_of_string app]; repeat rewrite <- app_assoc;
    cbn [app]; reflexivity.
Qed.

Lemma span_rendering_witness :
  (do leaf <- text_node_to_html_node
                (mkTextNode (lit "alt") IMAGE (Some (lit "u.png")));
   to_html leaf)
  = OK (lit "<img src=" ++ [dquote] ++ lit "u.png" ++ [dquote]
        ++ lit " alt=" ++ [dquote] ++ lit "alt" ++ [dquote]
        ++ lit "></img>").
Proof.
  apply (@span_rendering (mkTextNode (lit "alt") IMAGE (Some (lit "u.png")))).
  eexists. reflexivity.
Defined.

End Rendering.
